(** * LinkedIn enricher: selection, matching, record building and retry state

    A shallow embedding of [src/lib/utils/linkedin_profile_utils.py] and
    [src/enrich_linkedin_profiles.py], and the properties of the enrichment
    selection-and-retry engine proved over it.

    Conventions of the embedding.
    - A Python [str] is a [string]; handles and LinkedIn URLs are ASCII, and
      [str.lower] is modelled on that range (it maps [A-Z] to [a-z] and
      leaves every other character alone).
    - Python integers are unbounded: [Z].
    - A Python value that is only stored or copied is a [pyval]; a JSON
      object is an insertion-ordered association list.
    - A [dict] used as a map (the handle lookup) is a [gmap].
    - A raised exception is the [Raise] branch of [result].
    - [time.time()], the database and the Apify client are collaborators of
      the orchestrator; they are the variables of [Section Orchestrator],
      where the calls of the database layer return. [Module WithFaults] has
      the orchestrator with database calls that return or raise. *)

From Stdlib Require Import ZArith Ascii Lia Permutation.
From Stdlib Require Floats.SpecFloat.
From stdpp Require Import gmap strings list fin_maps sorting.

Local Open Scope Z_scope.
Set Warnings "-register-all".

(** ** Python values *)

Inductive pyval : Type :=
  | PNone
  | PBool (b : bool)
  | PInt (n : Z)
  | PFloat (f : SpecFloat.spec_float)
  | PStr (s : string)
  | PList (l : list pyval)
  | PDict (d : list (string * pyval)).

(** A profile returned by the provider: a JSON object. *)
Definition profile : Type := list (string * pyval).

(** [bool(v)]: Python truthiness. *)
Definition truthy (v : pyval) : bool :=
  match v with
  | PNone => false
  | PBool b => b
  | PInt n => negb (n =? 0)
  | PFloat (SpecFloat.S754_zero _) => false
  | PFloat _ => true
  | PStr "" => false
  | PStr _ => true
  | PList [] => false
  | PList _ => true
  | PDict [] => false
  | PDict _ => true
  end.

(** [d.get(key)] as an option: [None] when the key is absent. *)
Fixpoint dict_lookup (key : string) (d : profile) : option pyval :=
  match d with
  | [] => None
  | (k, v) :: d' => if String.eqb k key then Some v else dict_lookup key d'
  end.

(** [d.get(key, default)]. *)
Definition dict_get_default (d : profile) (key : string) (default : pyval) : pyval :=
  match dict_lookup key d with
  | Some v => v
  | None => default
  end.

(** [d.get(key)]: the default is [None]. *)
Definition dict_get (d : profile) (key : string) : pyval :=
  dict_get_default d key PNone.

(** ** Results of fallible code *)

(** [AttributeError] and the errors of the collaborators are [Exception]s;
    [KeyboardInterrupt] and [SystemExit] are not. *)
Inductive exn : Type :=
  | AttributeError
  | CollaboratorError (msg : string)
  | KeyboardInterrupt
  | SystemExit.

(** [isinstance(e, Exception)] *)
Definition is_exception (e : exn) : bool :=
  match e with
  | AttributeError | CollaboratorError _ => true
  | KeyboardInterrupt | SystemExit => false
  end.

Inductive result (A : Type) : Type :=
  | Ok (a : A)
  | Raise (e : exn).
Arguments Ok {A} a.
Arguments Raise {A} e.

(** ** String methods used by the normalizer *)

Module Str.

(** [s.startswith(p)] *)
Fixpoint startswith (s p : string) {struct p} : bool :=
  match p with
  | "" => true
  | String a p' =>
      match s with
      | "" => false
      | String b s' => if Ascii.eqb a b then startswith s' p' else false
      end
  end.

(** The scan of [s.replace(old, new)], [old] not empty: [skip] counts the
    characters of a match that are still to be passed over. *)
Fixpoint replace_from (old new : string) (skip : nat) (s : string) : string :=
  match s with
  | "" => ""
  | String c s' =>
      match skip with
      | S k => replace_from old new k s'
      | O =>
          if startswith s old
          then new +:+ replace_from old new (String.length old - 1) s'
          else String c (replace_from old new 0 s')
      end
  end.

(** [s.replace(old, new)] for a non-empty [old]: every occurrence found by
    one scan from the left, occurrences not overlapping. *)
Definition replace (old new s : string) : string := replace_from old new 0 s.

(** [s.lstrip(c)] for a single character [c] *)
Fixpoint lstrip (c : ascii) (s : string) : string :=
  match s with
  | "" => ""
  | String a s' => if Ascii.eqb a c then lstrip c s' else s
  end.

(** [s.rstrip(c)] for a single character [c] *)
Fixpoint rstrip (c : ascii) (s : string) : string :=
  match s with
  | "" => ""
  | String a s' =>
      match rstrip c s' with
      | "" => if Ascii.eqb a c then "" else String a ""
      | r => String a r
      end
  end.

(** [s.strip(c)] *)
Definition strip (c : ascii) (s : string) : string := rstrip c (lstrip c s).

(** [str.lower] on one character of an ASCII string: [A]-[Z] become [a]-[z],
    every other byte is kept. Cased letters outside ASCII are not modelled. *)
Definition lower_char (c : ascii) : ascii :=
  let n := nat_of_ascii c in
  if (65 <=? n)%nat && (n <=? 90)%nat then ascii_of_nat (n + 32) else c.

(** [s.lower()] *)
Fixpoint lower (s : string) : string :=
  match s with
  | "" => ""
  | String c s' => String (lower_char c) (lower s')
  end.

(** [needle in s] *)
Fixpoint contains (s needle : string) : bool :=
  startswith s needle ||
  match s with
  | "" => false
  | String _ s' => contains s' needle
  end.

(** [c in s] for a single character [c] *)
Fixpoint has_char (c : ascii) (s : string) : bool :=
  match s with
  | "" => false
  | String a s' => Ascii.eqb a c || has_char c s'
  end.

(** [s.endswith(c)] for a single character [c] *)
Fixpoint endswith_char (c : ascii) (s : string) : bool :=
  match s with
  | "" => false
  | String a "" => Ascii.eqb a c
  | String _ s' => endswith_char c s'
  end.

End Str.

(** ** Handle normalizer *)

Definition normalize_linkedin_handle (linkedin_url_or_handle : string) : string :=
  let handle := Str.replace "https://www.linkedin.com" "" linkedin_url_or_handle in
  let handle := Str.replace "https://linkedin.com" "" handle in
  let handle := Str.replace "http://www.linkedin.com" "" handle in
  let handle := Str.strip "/" handle in
  let handle := if negb (Str.startswith handle "in/") then "in/" +:+ handle else handle in
  Str.lower ("/" +:+ handle).

(** The host prefixes the normalizer removes, in the order it removes them. *)
Definition host_prefixes : list string :=
  [ "https://www.linkedin.com"; "https://linkedin.com"; "http://www.linkedin.com" ].

(** Whether a host prefix occurs somewhere in [s]. *)
Definition mentions_host (s : string) : bool :=
  existsb (Str.contains s) host_prefixes.

(** The value of [handle] after the three [replace] calls. *)
Definition without_hosts (x : string) : string :=
  Str.replace "http://www.linkedin.com" ""
    (Str.replace "https://linkedin.com" ""
       (Str.replace "https://www.linkedin.com" "" x)).

(** ** Data model *)

(** A row of the selection query, a 5-tuple in the source:
    [record[0]] to [record[4]]. The handle is a [str]: the query keeps only
    rows whose handle is not NULL. *)
Record pending_record : Type := {
  github_user_id : pyval;    (* record[0] *)
  social_link_url : pyval;   (* record[1] *)
  link_provider : pyval;     (* record[2] *)
  linkedin_handle : string;  (* record[3] *)
  retry_count : Z            (* record[4], COALESCE(lud.retry_count, 0) *)
}.

(** The tuple handed to the upsert, one value per column. *)
Definition outcome_record : Type := list pyval.

(** The column list of [upsert_linkedin_profiles]. *)
Definition columns : list string :=
  [ "github_user_id"; "social_link_url"; "link_provider"; "linkedin_handle";
    "record_source"; "profile_found"; "profile_fetch_message";
    "full_name"; "first_name"; "last_name"; "headline"; "about";
    "public_identifier"; "linkedin_url"; "connections"; "followers";
    "job_title"; "company_name"; "company_industry"; "company_website";
    "company_linkedin"; "company_founded_in"; "company_size";
    "current_job_duration_yrs"; "address_with_country";
    "address_country_only"; "address_without_country"; "profile_pic_url";
    "profile_pic_high_quality_url"; "top_skills_by_endorsements";
    "profile_data"; "retry_count"; "last_retry_at"; "next_retry_after" ].

(** Position of a column in [columns]. *)
Fixpoint column_index (name : string) (cols : list string) : option nat :=
  match cols with
  | [] => None
  | c :: cols' =>
      if String.eqb c name then Some O else S <$> column_index name cols'
  end.

(** The value an outcome record holds for a column. *)
Definition field (name : string) (r : outcome_record) : option pyval :=
  i ← column_index name columns; r !! i.

(** The 23 profile columns, [full_name] to [top_skills_by_endorsements]. *)
Definition profile_columns : list string := take 23 (drop 7 columns).

(** ** Record matcher *)

Fixpoint create_lookup_loop (apify_profiles : list profile)
    (handle_to_profile : gmap string profile) : result (gmap string profile) :=
  match apify_profiles with
  | [] => Ok handle_to_profile
  | profile :: rest =>
      let public_id := dict_get_default profile "publicIdentifier" (PStr "") in
      if truthy public_id then
        match public_id with
        | PStr s =>
            let normalized_handle := normalize_linkedin_handle s in
            create_lookup_loop rest (<[normalized_handle := profile]> handle_to_profile)
        | _ => Raise AttributeError   (* public_id.replace on a non-str *)
        end
      else create_lookup_loop rest handle_to_profile
  end.

Definition create_lookup_from_apify_profiles (apify_profiles : list profile)
    : result (gmap string profile) :=
  create_lookup_loop apify_profiles ∅.

(** The key under which the loop stores a profile, if it stores it. *)
Definition lookup_key (profile : profile) : option string :=
  match dict_get_default profile "publicIdentifier" (PStr "") with
  | PStr s => if truthy (PStr s) then Some (normalize_linkedin_handle s) else None
  | _ => None
  end.

Definition lookup_keys (apify_profiles : list profile) : list string :=
  omap lookup_key apify_profiles.

Definition match_record_to_apify_profile (record : pending_record)
    (apify_profile_lookup : gmap string profile) : option profile :=
  let normalized_handle := normalize_linkedin_handle (linkedin_handle record) in
  apify_profile_lookup !! normalized_handle.

(** The loop appends to two lists in the order of [pending_records]; the
    recursion builds the same two lists. [if apify_profile:] is false for
    [None] and for an empty dict. *)
Fixpoint partition_records_by_profile_availability
    (pending_records : list pending_record)
    (apify_profile_lookup : gmap string profile)
    : list (profile * pending_record) * list pending_record :=
  match pending_records with
  | [] => ([], [])
  | record :: rest =>
      let '(with_profiles, without_profiles) :=
        partition_records_by_profile_availability rest apify_profile_lookup in
      match match_record_to_apify_profile record apify_profile_lookup with
      | Some apify_profile =>
          if truthy (PDict apify_profile)
          then ((apify_profile, record) :: with_profiles, without_profiles)
          else (with_profiles, record :: without_profiles)
      | None => (with_profiles, record :: without_profiles)
      end
  end.

(** ** Record builder and retry scheduler *)


Section Builder.

(** [json.dumps] of the Python standard library, on a parsed JSON object. *)
Variable json_dumps : profile → string.

Definition build_enriched_profile_record (apify_profile : profile)
    (record : pending_record) : outcome_record :=
  [ github_user_id record;
    social_link_url record;
    link_provider record;
    PStr (linkedin_handle record);
    PStr "apify";   (* record_source *)
    PBool true;     (* profile_found *)
    PNone;          (* profile_fetch_message *)
    dict_get apify_profile "fullName";
    dict_get apify_profile "firstName";
    dict_get apify_profile "lastName";
    dict_get apify_profile "headline";
    dict_get apify_profile "about";
    dict_get apify_profile "publicIdentifier";
    dict_get apify_profile "linkedinUrl";
    dict_get apify_profile "connections";
    dict_get apify_profile "followers";
    dict_get apify_profile "jobTitle";
    dict_get apify_profile "companyName";
    dict_get apify_profile "companyIndustry";
    dict_get apify_profile "companyWebsite";
    dict_get apify_profile "companyLinkedin";
    dict_get apify_profile "companyFoundedIn";
    dict_get apify_profile "companySize";
    dict_get apify_profile "currentJobDurationInYrs";
    dict_get apify_profile "addressWithCountry";
    dict_get apify_profile "addressCountryOnly";
    dict_get apify_profile "addressWithoutCountry";
    dict_get apify_profile "profilePic";
    dict_get apify_profile "profilePicHighQuality";
    dict_get apify_profile "topSkillsByEndorsements";
    PStr (json_dumps apify_profile);   (* profile_data JSONB *)
    PInt 0;   (* retry_count *)
    PNone;    (* last_retry_at *)
    PNone     (* next_retry_after *)
  ].

End Builder.

(** The retry scheduler: the arithmetic of the miss path. *)
Definition new_retry_count (current_retry_count : Z) : Z := current_retry_count + 1.

Definition backoff_minutes (current_retry_count : Z) : Z :=
  (new_retry_count current_retry_count) ^ 2 * 5.

Definition next_retry_timestamp (current_timestamp current_retry_count : Z) : Z :=
  current_timestamp + backoff_minutes current_retry_count * 60 * 1000.

(** [build_missing_profile_record(record, current_retry_count)];
    [current_timestamp] is the value of [int(time.time() * 1000)] read by
    the call. *)
Definition build_missing_profile_record (current_timestamp : Z)
    (record : pending_record) (current_retry_count : Z) : outcome_record :=
  [ github_user_id record;
    social_link_url record;
    link_provider record;
    PStr (linkedin_handle record);
    PStr "apify";                                (* record_source *)
    PBool false;                                 (* profile_found *)
    PStr "Profile not returned by Apify API" ]   (* profile_fetch_message *)
  ++ replicate 23 PNone                          (* profile fields *)
  ++ [ PNone;                                    (* profile_data JSONB *)
       PInt (new_retry_count current_retry_count);
       PInt current_timestamp;                   (* last_retry_at *)
       PInt (next_retry_timestamp current_timestamp current_retry_count) ].

(** The value of the parameter [current_retry_count] when a call leaves it out. *)
Definition default_current_retry_count : Z := 0.

(** ** Selection query *)

(** The columns of [linkedin.user_details] the query reads; [None] is NULL. *)
Record user_details_row : Type := {
  lud_github_user_id : pyval;
  lud_social_link_url : pyval;
  lud_link_provider : pyval;
  lud_linkedin_handle : option string;
  lud_profile_found : option bool;
  lud_retry_count : option Z;
  lud_last_retry_at : option Z;
  lud_next_retry_after : option Z
}.

(** SQL's three-valued logic: [None] is UNKNOWN. *)
Module Sql.

Definition and3 (a b : option bool) : option bool :=
  match a, b with
  | Some false, _ | _, Some false => Some false
  | Some true, Some true => Some true
  | _, _ => None
  end.

Definition or3 (a b : option bool) : option bool :=
  match a, b with
  | Some true, _ | _, Some true => Some true
  | Some false, Some false => Some false
  | _, _ => None
  end.

Definition is_null {A} (x : option A) : option bool :=
  Some (match x with None => true | Some _ => false end).

Definition is_not_null {A} (x : option A) : option bool :=
  Some (match x with None => false | Some _ => true end).

(** [x IS FALSE] *)
Definition is_false (x : option bool) : option bool :=
  Some (match x with Some false => true | _ => false end).

(** [x < y] *)
Definition lt (x y : option Z) : option bool :=
  match x, y with
  | Some a, Some b => Some (a <? b)
  | _, _ => None
  end.

(** [COALESCE(x, d)] *)
Definition coalesce {A} (x : option A) (d : A) : A :=
  match x with Some a => a | None => d end.

(** A WHERE clause keeps the rows on which it is TRUE. *)
Definition holds (c : option bool) : bool :=
  match c with Some true => true | _ => false end.

(** [x ASC NULLS FIRST] as an order on keys. *)
Definition nulls_first_leb (x y : option Z) : bool :=
  match x, y with
  | None, _ => true
  | Some _, None => false
  | Some a, Some b => a <=? b
  end.

End Sql.

(** The WHERE clause of the selection query; [current_timestamp] is the
    query's first parameter. *)
Definition where_clause (current_timestamp : Z) (lud : user_details_row) : option bool :=
  Sql.and3
    (Sql.is_not_null (lud_linkedin_handle lud))
    (Sql.or3
       (* Never enriched *)
       (Sql.is_null (lud_retry_count lud))
       (* Failed enrichment eligible for retry *)
       (Sql.and3 (Sql.is_false (lud_profile_found lud))
          (Sql.and3 (Sql.lt (lud_retry_count lud) (Some 3))
             (Sql.or3 (Sql.is_null (lud_next_retry_after lud))
                (Sql.lt (lud_next_retry_after lud) (Some current_timestamp)))))).

(** ORDER BY COALESCE(retry_count, 0) ASC, last_retry_at ASC NULLS FIRST *)
Definition order_by_leb (a b : user_details_row) : bool :=
  let ka := Sql.coalesce (lud_retry_count a) 0 in
  let kb := Sql.coalesce (lud_retry_count b) 0 in
  (ka <? kb) || ((ka =? kb) && Sql.nulls_first_leb (lud_last_retry_at a) (lud_last_retry_at b)).

(** The SELECT list. A selected row has a handle ([IS NOT NULL] in the
    WHERE clause), so the second branch of the match is never taken. *)
Definition select_list (lud : user_details_row) : pending_record :=
  {| github_user_id := lud_github_user_id lud;
     social_link_url := lud_social_link_url lud;
     link_provider := lud_link_provider lud;
     linkedin_handle :=
       match lud_linkedin_handle lud with Some handle => handle | None => "" end;
     retry_count := Sql.coalesce (lud_retry_count lud) 0 |}.

(** The rows the query selects: WHERE, then ORDER BY, then LIMIT. The sort
    fixes one of the orders SQL allows for rows with equal keys; [limit] is
    a row count. *)
Definition selected_rows (table : list user_details_row) (current_timestamp : Z)
    (limit : nat) : list user_details_row :=
  take limit
    (merge_sort (λ a b, order_by_leb a b)
       (filter (λ lud, Sql.holds (where_clause current_timestamp lud)) table)).

(** The result set of the query. *)
Definition pending_query (table : list user_details_row) (current_timestamp : Z)
    (limit : nat) : list pending_record :=
  select_list <$> selected_rows table current_timestamp limit.

(** Eligibility in the words of the specification: a handle, and either
    never attempted, or failed with fewer than three retries and no
    cooldown left at [current_timestamp]. *)
Definition eligible (current_timestamp : Z) (lud : user_details_row) : Prop :=
  is_Some (lud_linkedin_handle lud)
  ∧ (lud_retry_count lud = None
     ∨ (lud_profile_found lud = Some false
        ∧ ∃ n, lud_retry_count lud = Some n ∧ n < 3
          ∧ (lud_next_retry_after lud = None
             ∨ ∃ t, lud_next_retry_after lud = Some t ∧ t < current_timestamp))).

(** ** Orchestrator *)

(** What a run can observe and change. A run reads the table before it
    writes; what the store does with a batch it accepts lies in
    [lib.db.postgres], and the world keeps the batch. *)
Record world : Type := {
  user_details : list user_details_row;   (* the table linkedin.user_details *)
  clock_reads : nat;                      (* calls of time.time() so far *)
  connections : nat;                      (* calls of open_connection() so far *)
  upserts : list (list outcome_record)    (* batches the store accepted, oldest first *)
}.

(** Every outcome record the store accepted. *)
Definition persisted (w : world) : list outcome_record := concat (upserts w).

(** Code that reads and changes the world and may raise. *)
Definition M (A : Type) : Type := world → result A * world.

Global Instance M_ret : MRet M := λ A a w, (Ok a, w).

Global Instance M_bind : MBind M := λ A B f m w,
  match m w with
  | (Ok a, w') => f a w'
  | (Raise e, w') => (Raise e, w')
  end.

(** [try: body except Exception as e: handler]: what is not an
    [Exception] passes through. *)
Definition try_except {A} (body : M A) (handler : exn → M A) : M A := λ w,
  match body w with
  | (Ok a, w') => (Ok a, w')
  | (Raise e, w') => if is_exception e then handler e w' else (Raise e, w')
  end.

(** A list comprehension whose body has effects. *)
Fixpoint for_each {A B} (f : A → M B) (l : list A) : M (list B) :=
  match l with
  | [] => mret []
  | x :: l' => y ← f x; ys ← for_each f l'; mret (y :: ys)
  end.

Section Orchestrator.

(** In this section the calls of [lib.db.postgres] return: [open_connection]
    gives its boolean, [execute_query] the rows and [close_connection]
    nothing. [Module WithFaults] below has the same functions with calls
    that may also raise. *)

(** The [n]-th value of [int(time.time() * 1000)]. *)
Variable now_ms : nat → Z.
(** What the [n]-th [open_connection()] returns. *)
Variable connection_opens : nat → bool.
(** [lib.apify.get_linkedin_profiles]: a list of profiles, or an exception. *)
Variable get_linkedin_profiles : list string → result (list profile).
(** Whether [lib.db.postgres.upsert_multiple_records] accepts a batch or raises. *)
Variable upsert_multiple_records : list outcome_record → result unit.
Variable json_dumps : profile → string.

Definition current_time_ms : M Z := λ w,
  (Ok (now_ms (clock_reads w)),
   {| user_details := user_details w; clock_reads := S (clock_reads w);
      connections := connections w; upserts := upserts w |}).

Definition open_connection : M bool := λ w,
  (Ok (connection_opens (connections w)),
   {| user_details := user_details w; clock_reads := clock_reads w;
      connections := S (connections w); upserts := upserts w |}).

Definition close_connection : M unit := mret tt.

(** [execute_query(query, params, is_select_query=True)] on the selection query. *)
Definition execute_query (current_timestamp : Z) (limit : nat) : M (list pending_record) :=
  λ w, (Ok (pending_query (user_details w) current_timestamp limit), w).

Definition call_get_linkedin_profiles (linkedin_urls : list string) : M (list profile) :=
  λ w, (get_linkedin_profiles linkedin_urls, w).

Definition call_upsert_multiple_records (profile_records : list outcome_record) : M unit :=
  λ w,
    match upsert_multiple_records profile_records with
    | Ok _ =>
        (Ok tt,
         {| user_details := user_details w; clock_reads := clock_reads w;
            connections := connections w;
            upserts := upserts w ++ [profile_records] |})
    | Raise e => (Raise e, w)
    end.

Definition lift {A} (r : result A) : M A := λ w, (r, w).

(** [None] is the Python [None] the function returns without a connection. *)
Definition fetch_records_pending_for_enrichment (limit : nat)
    : M (option (list pending_record)) :=
  current_timestamp ← current_time_ms;
  connected ← open_connection;
  if connected : bool then
    results ← execute_query current_timestamp limit;
    _ ← close_connection;
    mret (Some results)
  else mret None.

Definition upsert_linkedin_profiles (profile_records : list outcome_record) : M bool :=
  match profile_records with
  | [] => mret true
  | _ =>
      connected ← open_connection;
      if connected : bool then
        try_except
          (_ ← call_upsert_multiple_records profile_records;
           _ ← close_connection;
           mret true)
          (λ e, _ ← close_connection; mret false)
      else mret false
  end.

(** One call of [build_missing_profile_record]: it reads the clock once. *)
Definition build_missing_profile_record_now (record : pending_record)
    (current_retry_count : Z) : M outcome_record :=
  current_timestamp ← current_time_ms;
  mret (build_missing_profile_record current_timestamp record current_retry_count).

(** The run; console output is left out. *)
Definition enrich_linkedin_profiles (batch_size : nat) : M unit :=
  (* Step 1: fetch guests from database *)
  pending ← fetch_records_pending_for_enrichment batch_size;
  match pending with
  | None | Some [] => mret tt
  | Some pending_records =>
      (* Step 2: build LinkedIn URLs and call Apify API *)
      let linkedin_urls :=
        (λ record, "https://www.linkedin.com/" +:+ linkedin_handle record)
          <$> pending_records in
      apify_profiles ← call_get_linkedin_profiles linkedin_urls;
      (* Step 3: create lookup and partition records *)
      profile_lookup ← lift (create_lookup_from_apify_profiles apify_profiles);
      let '(records_with_profiles, records_without_profiles) :=
        partition_records_by_profile_availability pending_records profile_lookup in
      (* Step 4: build database records *)
      let enriched_records :=
        (λ '(profile, record), build_enriched_profile_record json_dumps profile record)
          <$> records_with_profiles in
      missing_records ←
        for_each (λ record, build_missing_profile_record_now record default_current_retry_count)
          records_without_profiles;
      (* Step 5: upsert to database *)
      let all_records := enriched_records ++ missing_records in
      success ← upsert_linkedin_profiles all_records;
      mret tt
  end.

End Orchestrator.

(** ** The orchestrator with database calls that may raise *)

(** The functions of [enrich_linkedin_profiles.py] once more, with each call
    of [lib.db.postgres] either returning or raising. A run makes each of
    the six calls at most once. *)
Module WithFaults.

(** What each call of the database layer does if the run makes it. *)
Record db_calls : Type := {
  fetch_open : result bool;     (* open_connection() of the selection *)
  fetch_query : option exn;     (* execute_query(...): what it raises, if it raises *)
  fetch_close : result unit;    (* close_connection() of the selection *)
  upsert_open : result bool;    (* open_connection() of the upsert *)
  upsert_close : result unit;   (* close_connection() in the try block *)
  handler_close : result unit   (* close_connection() in the except block *)
}.

Section Run.

Variable now_ms : nat → Z.
Variable db : db_calls.
Variable get_linkedin_profiles : list string → result (list profile).
Variable upsert_multiple_records : list outcome_record → result unit.
Variable json_dumps : profile → string.

Definition open_connection (outcome : result bool) : M bool := λ w,
  (outcome,
   {| user_details := user_details w; clock_reads := clock_reads w;
      connections := S (connections w); upserts := upserts w |}).

Definition close_connection (outcome : result unit) : M unit := λ w, (outcome, w).

Definition execute_query (fault : option exn) (current_timestamp : Z)
    (limit : nat) : M (list pending_record) := λ w,
  (match fault with
   | Some e => Raise e
   | None => Ok (pending_query (user_details w) current_timestamp limit)
   end, w).

Definition fetch_records_pending_for_enrichment (limit : nat)
    : M (option (list pending_record)) :=
  current_timestamp ← current_time_ms now_ms;
  connected ← open_connection (fetch_open db);
  if connected : bool then
    results ← execute_query (fetch_query db) current_timestamp limit;
    _ ← close_connection (fetch_close db);
    mret (Some results)
  else mret None.

Definition upsert_linkedin_profiles (profile_records : list outcome_record) : M bool :=
  match profile_records with
  | [] => mret true
  | _ =>
      connected ← open_connection (upsert_open db);
      if connected : bool then
        try_except
          (_ ← call_upsert_multiple_records upsert_multiple_records profile_records;
           _ ← close_connection (upsert_close db);
           mret true)
          (λ e, _ ← close_connection (handler_close db); mret false)
      else mret false
  end.

Definition enrich_linkedin_profiles (batch_size : nat) : M unit :=
  (* Step 1: fetch guests from database *)
  pending ← fetch_records_pending_for_enrichment batch_size;
  match pending with
  | None | Some [] => mret tt
  | Some pending_records =>
      (* Step 2: build LinkedIn URLs and call Apify API *)
      let linkedin_urls :=
        (λ record, "https://www.linkedin.com/" +:+ linkedin_handle record)
          <$> pending_records in
      apify_profiles ← call_get_linkedin_profiles get_linkedin_profiles linkedin_urls;
      (* Step 3: create lookup and partition records *)
      profile_lookup ← lift (create_lookup_from_apify_profiles apify_profiles);
      let '(records_with_profiles, records_without_profiles) :=
        partition_records_by_profile_availability pending_records profile_lookup in
      (* Step 4: build database records *)
      let enriched_records :=
        (λ '(profile, record), build_enriched_profile_record json_dumps profile record)
          <$> records_with_profiles in
      missing_records ←
        for_each (λ record, build_missing_profile_record_now now_ms record
                              default_current_retry_count)
          records_without_profiles;
      (* Step 5: upsert to database *)
      let all_records := enriched_records ++ missing_records in
      success ← upsert_linkedin_profiles all_records;
      mret tt
  end.

End Run.

(** The calls as [Section Orchestrator] has them: every call returns. *)
Definition db_returns (connection_opens : nat → bool) (w : world) : db_calls :=
  {| fetch_open := Ok (connection_opens (connections w));
     fetch_query := None;
     fetch_close := Ok tt;
     upsert_open := Ok (connection_opens (S (connections w)));
     upsert_close := Ok tt;
     handler_close := Ok tt |}.

End WithFaults.

(** ** Notions the further properties are stated with *)

(** A reference in its bare form: a handle with no host prefix in it, no
    slash at either end and no [in/] in front. *)
Definition bare_handle (h : string) : Prop :=
  h ≠ ""
  ∧ mentions_host h = false
  ∧ Str.startswith h "/" = false
  ∧ Str.endswith_char "/" h = false
  ∧ Str.startswith h "in/" = false.

(** The [publicIdentifier] of the profile is truthy and not a [str]: the
    loop calls [.replace] on it and raises. *)
Definition identifier_raises (profile : profile) : bool :=
  match dict_get_default profile "publicIdentifier" (PStr "") with
  | PStr _ => false
  | public_id => truthy public_id
  end.

(** What one turn of the loop stores when it does not raise. *)
Definition store_profile (handle_to_profile : gmap string profile)
    (apify_profile : profile) : gmap string profile :=
  match lookup_key apify_profile with
  | Some normalized_handle => <[normalized_handle := apify_profile]> handle_to_profile
  | None => handle_to_profile
  end.

(** The test [if apify_profile:] of the partition, on a record. *)
Definition has_profile (apify_profile_lookup : gmap string profile)
    (record : pending_record) : bool :=
  match match_record_to_apify_profile record apify_profile_lookup with
  | Some apify_profile => truthy (PDict apify_profile)
  | None => false
  end.

(** The order of the ORDER BY clause as a relation. *)
Definition order_by (a b : user_details_row) : Prop := order_by_leb a b.

(** The world after the selection: the clock was read and a connection
    opened, once each. *)
Definition after_selection (w : world) : world :=
  {| user_details := user_details w; clock_reads := S (clock_reads w);
     connections := S (connections w); upserts := upserts w |}.

(** The world before the upsert: after the selection and [n] more readings
    of the clock, one for each missing record. *)
Definition before_upsert (w : world) (n : nat) : world :=
  {| user_details := user_details w; clock_reads := S (clock_reads w) + n;
     connections := S (connections w); upserts := upserts w |}.

(** The URLs the run asks the provider for. *)
Definition linkedin_urls (pending_records : list pending_record) : list string :=
  (λ record, "https://www.linkedin.com/" +:+ linkedin_handle record)
    <$> pending_records.

(** Whether the store takes a batch. *)
Definition store_accepts_batch
    (upsert_multiple_records : list outcome_record → result unit)
    (profile_records : list outcome_record) : bool :=
  match upsert_multiple_records profile_records with
  | Ok _ => true
  | Raise _ => false
  end.

(** The conflict columns of the upsert, [github_user_id] and
    [linkedin_handle], of an outcome record and of a pending record. *)
Definition outcome_key (r : outcome_record) : option pyval * option pyval :=
  (field "github_user_id" r, field "linkedin_handle" r).

Definition pending_key (record : pending_record) : option pyval * option pyval :=
  (Some (github_user_id record), Some (PStr (linkedin_handle record))).

(** ** Sample data *)

Module Sample.

(** A row that failed twice; its cooldown ended at 2000. *)
Definition failed_twice : user_details_row :=
  {| lud_github_user_id := PInt 7;
     lud_social_link_url := PStr "https://www.linkedin.com/in/jdoe";
     lud_link_provider := PStr "linkedin";
     lud_linkedin_handle := Some "in/jdoe";
     lud_profile_found := Some false;
     lud_retry_count := Some 2;
     lud_last_retry_at := Some 1000;
     lud_next_retry_after := Some 2000 |}.

(** A row that failed three times; its cooldown ended at 3000. *)
Definition failed_thrice : user_details_row :=
  {| lud_github_user_id := PInt 8;
     lud_social_link_url := PStr "https://www.linkedin.com/in/asmith";
     lud_link_provider := PStr "linkedin";
     lud_linkedin_handle := Some "in/asmith";
     lud_profile_found := Some false;
     lud_retry_count := Some 3;
     lud_last_retry_at := Some 1500;
     lud_next_retry_after := Some 3000 |}.

(** A row that was never attempted. *)
Definition never_attempted : user_details_row :=
  {| lud_github_user_id := PInt 9;
     lud_social_link_url := PStr "https://www.linkedin.com/in/jdoe";
     lud_link_provider := PStr "linkedin";
     lud_linkedin_handle := Some "in/jdoe";
     lud_profile_found := None;
     lud_retry_count := None;
     lud_last_retry_at := None;
     lud_next_retry_after := None |}.

Definition world_of (table : list user_details_row) : world :=
  {| user_details := table; clock_reads := 0; connections := 0; upserts := [] |}.

(** The clock starts at 5000 ms and moves 1 ms with each reading. *)
Definition clock (n : nat) : Z := 5000 + Z.of_nat n.

Definition always_connected (n : nat) : bool := true.
Definition store_accepts (batch : list outcome_record) : result unit := Ok tt.
Definition provider_returns (profiles : list profile) (urls : list string)
    : result (list profile) := Ok profiles.
Definition provider_times_out (urls : list string) : result (list profile) :=
  Raise (CollaboratorError "timeout").
Definition dumps (p : profile) : string := "{...}".

Definition jdoe : profile :=
  [ ("publicIdentifier", PStr "jdoe"); ("fullName", PStr "J. Doe") ].
Definition jdoe_upper : profile :=
  [ ("publicIdentifier", PStr "JDoe"); ("headline", PStr "Engineer") ].
Definition asmith : profile :=
  [ ("publicIdentifier", PStr "https://www.linkedin.com/in/asmith/") ].

Definition pending_jdoe : pending_record := select_list never_attempted.

(** A row in the state a first miss at 5000 ms leaves. *)
Definition failed_once : user_details_row :=
  {| lud_github_user_id := PInt 10;
     lud_social_link_url := PStr "https://www.linkedin.com/in/bmiller";
     lud_link_provider := PStr "linkedin";
     lud_linkedin_handle := Some "in/bmiller";
     lud_profile_found := Some false;
     lud_retry_count := Some 1;
     lud_last_retry_at := Some 5000;
     lud_next_retry_after := Some 305000 |}.

(** A profile the provider returned without an identifier. *)
Definition nameless : profile := [ ("fullName", PStr "N. N.") ].


(** A second row that was never attempted. *)
Definition never_attempted_bmiller : user_details_row :=
  {| lud_github_user_id := PInt 11;
     lud_social_link_url := PStr "https://www.linkedin.com/in/bmiller";
     lud_link_provider := PStr "linkedin";
     lud_linkedin_handle := Some "in/bmiller";
     lud_profile_found := None;
     lud_retry_count := None;
     lud_last_retry_at := None;
     lud_next_retry_after := None |}.

Definition pending_bmiller : pending_record := select_list never_attempted_bmiller.




(** The lookup of [[jdoe]], and a lookup whose entry is an empty profile. *)
Definition lookup_jdoe : gmap string profile := <["/in/jdoe" := jdoe]> ∅.
Definition lookup_empty_profile : gmap string profile := <["/in/jdoe" := []]> ∅.

End Sample.

(** * Properties *)

(** ** Strings *)

Module StrFacts.
Import Str.

Lemma app_nil_l s : "" +:+ s = s.
Proof. reflexivity. Qed.

Lemma app_cons a s t : String a s +:+ t = String a (s +:+ t).
Proof. reflexivity. Qed.

Lemma app_nil_r s : s +:+ "" = s.
Proof. induction s as [|a s IH]; [reflexivity|]. rewrite app_cons, IH. reflexivity. Qed.

Lemma app_assoc s t u : (s +:+ t) +:+ u = s +:+ t +:+ u.
Proof.
  induction s as [|a s IH]; [reflexivity|].
  rewrite !app_cons, IH. reflexivity.
Qed.

Lemma length_app s t :
  String.length (s +:+ t) = (String.length s + String.length t)%nat.
Proof.
  induction s as [|a s IH]; [reflexivity|].
  rewrite app_cons. simpl. rewrite IH. reflexivity.
Qed.

(** *** startswith *)

Lemma startswith_app p v : startswith (p +:+ v) p = true.
Proof.
  induction p as [|a p IH]; [reflexivity|].
  rewrite app_cons. simpl. rewrite Ascii.eqb_refl. exact IH.
Qed.

Lemma startswith_inv s p : startswith s p = true → ∃ v, s = p +:+ v.
Proof.
  revert s. induction p as [|a p IH]; intros s H.
  - exists s. reflexivity.
  - destruct s as [|b s]; simpl in H; [discriminate|].
    destruct (Ascii.eqb a b) eqn:E; [|discriminate].
    apply Ascii.eqb_eq in E as <-.
    destruct (IH _ H) as [v ->]. exists v. reflexivity.
Qed.

Lemma startswith_app_l s p v : startswith s p = true → startswith (s +:+ v) p = true.
Proof.
  intros [w ->]%startswith_inv. rewrite app_assoc. apply startswith_app.
Qed.

(** A prefix that does not hold the character [h] ends before the first [h]. *)
Lemma startswith_before_char q u h w :
  has_char h q = false →
  startswith (u +:+ String h w) q = true → startswith u q = true.
Proof.
  revert u. induction q as [|a q IH]; intros u Hh H; [reflexivity|].
  simpl in Hh. apply orb_false_iff in Hh as [Hah Hq].
  destruct u as [|c u].
  - rewrite app_nil_l in H. simpl in H. rewrite Hah in H. discriminate.
  - rewrite app_cons in H. simpl in H |- *.
    destruct (Ascii.eqb a c); [|discriminate]. eauto.
Qed.

(** *** contains *)

Lemma contains_cons c s p :
  contains (String c s) p = startswith (String c s) p || contains s p.
Proof. reflexivity. Qed.

Lemma contains_startswith s p : startswith s p = true → contains s p = true.
Proof. intros H. destruct s; simpl; rewrite H; reflexivity. Qed.

Lemma contains_app_r u s p : contains s p = true → contains (u +:+ s) p = true.
Proof.
  intros H. induction u as [|c u IH]; [exact H|].
  rewrite app_cons, contains_cons, IH. apply orb_true_r.
Qed.

Lemma contains_app_l s v p : contains s p = true → contains (s +:+ v) p = true.
Proof.
  induction s as [|c s IH]; intros H.
  - simpl in H. rewrite orb_false_r in H.
    apply contains_startswith. apply (startswith_app_l "" p v H).
  - rewrite app_cons, contains_cons. rewrite contains_cons in H.
    apply orb_true_iff in H as [H|H].
    + rewrite <- app_cons, (startswith_app_l _ _ v H). reflexivity.
    + rewrite (IH H). apply orb_true_r.
Qed.

Lemma contains_intro u p v : contains (u +:+ p +:+ v) p = true.
Proof. apply contains_app_r, contains_startswith, startswith_app. Qed.

Lemma contains_inv s p : contains s p = true → ∃ u v, s = u +:+ p +:+ v.
Proof.
  induction s as [|c s IH]; intros H.
  - simpl in H. rewrite orb_false_r in H.
    apply startswith_inv in H as [v ->]. exists "", v. reflexivity.
  - rewrite contains_cons in H. apply orb_true_iff in H as [H|H].
    + apply startswith_inv in H as [v ->]. exists "", v. reflexivity.
    + destruct (IH H) as (u & v & ->). exists (String c u), v. reflexivity.
Qed.

(** A text without [h] in front of [v] holds no more occurrences of a
    pattern that begins with [h] than [v] does. *)
Lemma contains_skip_no_head h q w v :
  has_char h w = false →
  contains (w +:+ v) (String h q) = contains v (String h q).
Proof.
  induction w as [|c w IH]; intros Hh; [reflexivity|].
  simpl in Hh. apply orb_false_iff in Hh as [Hc Hw].
  rewrite app_cons, contains_cons, (IH Hw). simpl startswith.
  rewrite Ascii.eqb_sym, Hc. reflexivity.
Qed.

(** *** replace *)

Lemma replace_from_skip old new a s :
  replace_from old new (String.length a) (a +:+ s) = replace_from old new 0 s.
Proof.
  induction a as [|c a IH]; [reflexivity|].
  rewrite app_cons. simpl. exact IH.
Qed.

Lemma replace_from_0 old new c s :
  replace_from old new 0 (String c s)
  = if startswith (String c s) old
    then new +:+ replace_from old new (String.length old - 1) s
    else String c (replace_from old new 0 s).
Proof. reflexivity. Qed.

(** The scan at an occurrence: emit [new], go on behind the occurrence. *)
Lemma replace_hit old new v :
  old ≠ "" → replace old new (old +:+ v) = new +:+ replace old new v.
Proof.
  intros Hne. destruct old as [|c old]; [done|].
  unfold replace. rewrite app_cons, replace_from_0.
  assert (startswith (String c (old +:+ v)) (String c old) = true) as ->
    by apply (startswith_app (String c old) v).
  replace (String.length (String c old) - 1)%nat with (String.length old)
    by (simpl; lia).
  rewrite replace_from_skip. reflexivity.
Qed.

(** The scan elsewhere: keep the character, go on behind it. *)
Lemma replace_miss old new c s :
  startswith (String c s) old = false →
  replace old new (String c s) = String c (replace old new s).
Proof. intros H. unfold replace. rewrite replace_from_0, H. reflexivity. Qed.

Lemma replace_absent old new s : contains s old = false → replace old new s = s.
Proof.
  induction s as [|c s IH]; intros H; [reflexivity|].
  rewrite contains_cons in H. apply orb_false_iff in H as [H1 H2].
  rewrite (replace_miss _ _ _ _ H1), (IH H2). reflexivity.
Qed.

(** An occurrence of a pattern whose first character is nowhere else in it
    cannot run from [u] into a following occurrence. *)
Lemma startswith_no_straddle h q c u v :
  has_char h q = false →
  startswith (String c (u +:+ String h q +:+ v)) (String h q)
  = startswith (String c u) (String h q).
Proof.
  intros Hh.
  destruct (startswith (String c u) (String h q)) eqn:E.
  - apply (startswith_app_l (String c u)). exact E.
  - rewrite !app_cons. simpl in E |- *.
    destruct (Ascii.eqb h c); [|reflexivity].
    destruct (startswith (u +:+ String h (q +:+ v)) q) eqn:E'; [|reflexivity].
    apply startswith_before_char in E'; [congruence | exact Hh].
Qed.

(** [replace] removes an occurrence wherever it stands: the text before it
    and the text behind it are scanned as they would be on their own. *)
Lemma replace_around h q new u v :
  has_char h q = false →
  replace (String h q) new (u +:+ String h q +:+ v)
  = replace (String h q) new u +:+ new +:+ replace (String h q) new v.
Proof.
  intros Hh.
  assert (∀ n u, (String.length u ≤ n)%nat →
    replace (String h q) new (u +:+ String h q +:+ v)
    = replace (String h q) new u +:+ new +:+ replace (String h q) new v) as H;
    [|exact (H _ u (Nat.le_refl _))].
  clear u. induction n as [|n IH]; intros u Hn.
  - destruct u; [|simpl in Hn; lia].
    rewrite app_nil_l, replace_hit by done. reflexivity.
  - destruct u as [|c u].
    { rewrite app_nil_l, replace_hit by done. reflexivity. }
    destruct (startswith (String c u) (String h q)) eqn:E.
    + destruct (startswith_inv _ _ E) as [u2 Hu]. rewrite Hu.
      rewrite app_assoc, !replace_hit by done. rewrite IH, app_assoc; [reflexivity|].
      apply (f_equal String.length) in Hu. rewrite length_app in Hu.
      simpl in Hu, Hn. lia.
    + rewrite app_cons, replace_miss by (rewrite startswith_no_straddle; done).
      rewrite (replace_miss _ _ _ _ E), IH by (simpl in Hn; lia).
      reflexivity.
Qed.

Lemma replace_from_length old k s :
  (String.length (replace_from old "" k s) ≤ String.length s - k)%nat.
Proof.
  revert k. induction s as [|c s IH]; intros k; [simpl; lia|].
  destruct k as [|k]; [rewrite replace_from_0 | simpl replace_from].
  - destruct (startswith (String c s) old).
    + rewrite app_nil_l. specialize (IH (String.length old - 1)%nat). simpl. lia.
    + specialize (IH O). simpl. lia.
  - specialize (IH k). simpl. lia.
Qed.

Lemma replace_length old s :
  (String.length (replace old "" s) ≤ String.length s)%nat.
Proof. pose proof (replace_from_length old 0 s). unfold replace. lia. Qed.

(** With an occurrence in [s], removing it makes [s] shorter by the pattern. *)
Lemma replace_length_hit old s :
  old ≠ "" → contains s old = true →
  (String.length (replace old "" s) + String.length old ≤ String.length s)%nat.
Proof.
  intros Hne. induction s as [|c s IH]; intros H.
  - simpl in H. destruct old; [done|discriminate].
  - rewrite contains_cons in H. unfold replace in *. rewrite replace_from_0.
    destruct (startswith (String c s) old) eqn:E.
    + destruct (startswith_inv _ _ E) as [v Hv].
      apply (f_equal String.length) in Hv. rewrite length_app in Hv.
      pose proof (replace_from_length old (String.length old - 1) s).
      rewrite app_nil_l. destruct old; [done|]. simpl in *. lia.
    + simpl in H. specialize (IH H). simpl. lia.
Qed.

(** *** strip *)

Lemma lstrip_length c s : (String.length (lstrip c s) ≤ String.length s)%nat.
Proof.
  induction s as [|a s IH]; [done|]. simpl.
  destruct (Ascii.eqb a c); simpl; lia.
Qed.

Lemma rstrip_length c s : (String.length (rstrip c s) ≤ String.length s)%nat.
Proof.
  induction s as [|a s IH]; [done|]. simpl.
  destruct (rstrip c s); [destruct (Ascii.eqb a c)|]; simpl in *; lia.
Qed.

Lemma strip_length c s : (String.length (strip c s) ≤ String.length s)%nat.
Proof.
  unfold strip. pose proof (rstrip_length c (lstrip c s)).
  pose proof (lstrip_length c s). lia.
Qed.

Lemma rstrip_endswith c s : endswith_char c (rstrip c s) = false.
Proof.
  induction s as [|a s IH]; [done|]. simpl.
  destruct (rstrip c s) as [|b r] eqn:E.
  - destruct (Ascii.eqb a c) eqn:Ea; simpl; [done | exact Ea].
  - exact IH.
Qed.

Lemma strip_endswith c s : endswith_char c (strip c s) = false.
Proof. apply rstrip_endswith. Qed.

Lemma rstrip_id c s : endswith_char c s = false → rstrip c s = s.
Proof.
  induction s as [|a s IH]; intros H; [done|].
  destruct s as [|b s].
  - simpl in *. rewrite H. reflexivity.
  - change (endswith_char c (String b s) = false) in H.
    change (rstrip c (String a (String b s)))
      with (match rstrip c (String b s) with
            | "" => if Ascii.eqb a c then "" else String a ""
            | r => String a r
            end).
    rewrite (IH H). reflexivity.
Qed.

Lemma endswith_char_app c s t :
  t ≠ "" → endswith_char c (s +:+ t) = endswith_char c t.
Proof.
  intros Ht. induction s as [|a s IH]; [reflexivity|].
  rewrite app_cons.
  destruct (s +:+ t) as [|b r] eqn:E; [|exact IH].
  destruct s; [rewrite app_nil_l in E; done | discriminate].
Qed.

(** *** lower *)

Lemma lower_char_idem c : lower_char (lower_char c) = lower_char c.
Proof. destruct c as [[] [] [] [] [] [] [] []]; reflexivity. Qed.

Lemma lower_char_slash c : Ascii.eqb (lower_char c) "/" = Ascii.eqb c "/".
Proof. destruct c as [[] [] [] [] [] [] [] []]; reflexivity. Qed.

Lemma lower_idem s : lower (lower s) = lower s.
Proof.
  induction s as [|c s IH]; [done|]. simpl. rewrite lower_char_idem, IH. done.
Qed.

Lemma lower_length s : String.length (lower s) = String.length s.
Proof. induction s as [|c s IH]; [done|]. simpl. rewrite IH. done. Qed.

Lemma endswith_char_lower s :
  endswith_char "/" (lower s) = endswith_char "/" s.
Proof.
  induction s as [|c s IH]; [done|].
  destruct s as [|b s]; [apply lower_char_slash | exact IH].
Qed.

End StrFacts.

(** ** Handle normalizer *)

Section Normalizer.
Import Str StrFacts.

(** The examples of the docstring. *)
Example normalize_url :
  normalize_linkedin_handle "https://linkedin.com/in/artsofbaniya/" = "/in/artsofbaniya".
Proof. reflexivity. Qed.

Example normalize_path :
  normalize_linkedin_handle "/in/ArtsOfBaniya" = "/in/artsofbaniya".
Proof. reflexivity. Qed.

Example normalize_bare :
  normalize_linkedin_handle "artsofbaniya" = "/in/artsofbaniya".
Proof. reflexivity. Qed.

Lemma normalize_unfold x :
  normalize_linkedin_handle x
  = let handle := strip "/" (without_hosts x) in
    lower ("/" +:+ (if negb (startswith handle "in/") then "in/" +:+ handle else handle)).
Proof. reflexivity. Qed.

Lemma mentions_host_false s :
  mentions_host s = false ↔
  contains s "https://www.linkedin.com" = false ∧
  contains s "https://linkedin.com" = false ∧
  contains s "http://www.linkedin.com" = false.
Proof.
  unfold mentions_host, host_prefixes. cbn [existsb].
  rewrite orb_false_r, !orb_false_iff. tauto.
Qed.

Lemma contains_app_false u v p :
  contains (u +:+ v) p = false → contains u p = false ∧ contains v p = false.
Proof.
  intros H. split.
  - destruct (contains u p) eqn:E; [|done]. by rewrite (contains_app_l _ v _ E) in H.
  - destruct (contains v p) eqn:E; [|done]. by rewrite (contains_app_r u _ _ E) in H.
Qed.

Lemma without_hosts_clean s : mentions_host s = false → without_hosts s = s.
Proof.
  intros (H1 & H2 & H3)%mentions_host_false. unfold without_hosts.
  rewrite (replace_absent _ _ _ H1), (replace_absent _ _ _ H2).
  apply replace_absent, H3.
Qed.

Lemma without_hosts_length s :
  (String.length (without_hosts s) ≤ String.length s)%nat.
Proof.
  unfold without_hosts.
  etrans; [apply replace_length|]. etrans; [apply replace_length|].
  apply replace_length.
Qed.

(** A host prefix is at least 20 characters long. *)
Lemma without_hosts_length_hit s :
  mentions_host s = true →
  (String.length (without_hosts s) + 20 ≤ String.length s)%nat.
Proof.
  intros H. unfold without_hosts.
  destruct (contains s "https://www.linkedin.com") eqn:H1.
  { apply replace_length_hit in H1; [|done].
    etrans; [|exact H1]. simpl String.length at 3.
    pose proof (replace_length "http://www.linkedin.com"
      (replace "https://linkedin.com" "" (replace "https://www.linkedin.com" "" s))).
    pose proof (replace_length "https://linkedin.com"
      (replace "https://www.linkedin.com" "" s)). lia. }
  rewrite (replace_absent _ _ _ H1).
  destruct (contains s "https://linkedin.com") eqn:H2.
  { apply replace_length_hit in H2; [|done].
    etrans; [|exact H2]. simpl String.length at 3.
    pose proof (replace_length "http://www.linkedin.com"
      (replace "https://linkedin.com" "" s)). lia. }
  rewrite (replace_absent _ _ _ H2).
  destruct (contains s "http://www.linkedin.com") eqn:H3.
  { apply replace_length_hit in H3; [|done].
    etrans; [|exact H3]. simpl String.length at 3. lia. }
  unfold mentions_host, host_prefixes in H. cbn [existsb] in H.
  rewrite H1, H2, H3 in H. discriminate.
Qed.

(** The key is [/in/] and a lower-case rest that does not end in a slash. *)
Lemma normalize_shape x :
  ∃ t, normalize_linkedin_handle x = "/in/" +:+ lower t
       ∧ endswith_char "/" t = false.
Proof.
  rewrite normalize_unfold. cbv zeta.
  pose proof (strip_endswith "/" (without_hosts x)) as He.
  destruct (startswith (strip "/" (without_hosts x)) "in/") eqn:E; cbn [negb].
  - destruct (startswith_inv _ _ E) as [t Ht]. rewrite Ht in He |- *.
    exists t. split; [reflexivity|].
    destruct t as [|c t]; [discriminate|].
    rewrite endswith_char_app in He; done.
  - exists (strip "/" (without_hosts x)). split; [reflexivity | exact He].
Qed.

(** A key that names no host and has a rest is a fixed point. *)
Lemma normalize_key_fixed t :
  endswith_char "/" t = false → t ≠ "" →
  mentions_host ("/in/" +:+ lower t) = false →
  normalize_linkedin_handle ("/in/" +:+ lower t) = "/in/" +:+ lower t.
Proof.
  intros He Ht Hm. rewrite normalize_unfold, (without_hosts_clean _ Hm). cbv zeta.
  assert (lower t ≠ "") as Hlt by (destruct t; [done | discriminate]).
  unfold strip.
  assert (lstrip "/" ("/in/" +:+ lower t) = "in/" +:+ lower t) as -> by reflexivity.
  rewrite rstrip_id
    by (rewrite endswith_char_app, endswith_char_lower; done).
  rewrite startswith_app. cbn [negb].
  change (lower ("/" +:+ "in/" +:+ lower t)) with ("/in/" +:+ lower (lower t)).
  rewrite lower_idem. reflexivity.
Qed.

Lemma normalize_length x :
  (String.length (normalize_linkedin_handle x) ≤ String.length (without_hosts x) + 4)%nat.
Proof.
  rewrite normalize_unfold. cbv zeta. rewrite lower_length.
  pose proof (strip_length "/" (without_hosts x)).
  destruct (startswith _ "in/"); cbn [negb];
    rewrite ?length_app; simpl String.length; lia.
Qed.

(** A key that names a host is not a fixed point: the second pass is shorter. *)
Lemma normalize_key_shrinks y :
  mentions_host y = true → normalize_linkedin_handle y ≠ y.
Proof.
  intros Hm Heq. apply (f_equal String.length) in Heq.
  pose proof (normalize_length y). pose proof (without_hosts_length_hit y Hm). lia.
Qed.

(** C6, as the code has it: normalization is total and always yields a key
    of the form [/in/] followed by a lower-case rest; normalizing a key
    again gives the same key exactly when the key is not the bare [/in/]
    and names none of the three host prefixes. *)
Theorem normalize_idempotent_iff (x : string) :
  (∃ t, normalize_linkedin_handle x = "/in/" +:+ t ∧ lower t = t) ∧
  (normalize_linkedin_handle (normalize_linkedin_handle x) = normalize_linkedin_handle x
   ↔ normalize_linkedin_handle x ≠ "/in/"
     ∧ mentions_host (normalize_linkedin_handle x) = false).
Proof.
  destruct (normalize_shape x) as (t & Hx & He). split.
  - exists (lower t). split; [exact Hx | apply lower_idem].
  - rewrite Hx. split.
    + intros Hfix. split.
      * intros Hbare. rewrite Hbare in Hfix. discriminate.
      * destruct (mentions_host ("/in/" +:+ lower t)) eqn:Hm; [|done].
        destruct (normalize_key_shrinks _ Hm Hfix).
    + intros [Hbare Hm]. apply normalize_key_fixed; [done| |done].
      intros ->. by apply Hbare.
Qed.

(** C6 as stated fails: ["/"] is a non-empty input whose key ["/in/"] is
    normalized to ["/in/in"], and an upper-case URL gives a key that names
    a host, which the second pass removes. *)
Lemma normalize_not_idempotent :
  ¬ (∀ x : string, x ≠ "" →
       normalize_linkedin_handle (normalize_linkedin_handle x)
       = normalize_linkedin_handle x)
  ∧ normalize_linkedin_handle "/" = "/in/"
  ∧ normalize_linkedin_handle "/in/" = "/in/in"
  ∧ normalize_linkedin_handle "HTTPS://WWW.LINKEDIN.COM/in/foo"
    = "/in/https://www.linkedin.com/in/foo"
  ∧ normalize_linkedin_handle "/in/https://www.linkedin.com/in/foo" = "/in//in/foo".
Proof.
  split; [|by vm_compute].
  intros H. specialize (H "/" ltac:(discriminate)). vm_compute in H. discriminate.
Qed.

(** Putting a pattern [h p] into a text creates no occurrence of another
    pattern [h q], when [h] is in neither tail and [h q] does not begin [h p]. *)
Lemma contains_insert h p q u v :
  has_char h p = false → has_char h q = false →
  (∀ w, startswith (String h p +:+ w) (String h q) = false) →
  contains (u +:+ v) (String h q) = false →
  contains (u +:+ String h p +:+ v) (String h q) = false.
Proof.
  intros Hp Hq Hpq. induction u as [|c u IH]; intros H.
  - rewrite app_nil_l in H |- *. rewrite app_cons, contains_cons.
    rewrite <- app_cons, Hpq, contains_skip_no_head by done. exact H.
  - rewrite app_cons, contains_cons in H. apply orb_false_iff in H as [H1 H2].
    rewrite app_cons, contains_cons, (IH H2), orb_false_r.
    simpl in H1 |- *. destruct (Ascii.eqb h c); [|done].
    destruct (startswith (u +:+ String h p +:+ v) q) eqn:E; [|done].
    apply startswith_before_char in E; [|done].
    by rewrite (startswith_app_l _ _ v E) in H1.
Qed.

Lemma normalize_by_without_hosts x y :
  without_hosts x = without_hosts y →
  normalize_linkedin_handle x = normalize_linkedin_handle y.
Proof. intros H. rewrite !normalize_unfold, H. reflexivity. Qed.

(** With no host prefix in the rest of the text, the three [replace] calls
    take an embedded host prefix out and leave the rest. *)
Lemma without_hosts_embedded host u v :
  host ∈ host_prefixes → mentions_host (u +:+ v) = false →
  without_hosts (u +:+ host +:+ v) = u +:+ v.
Proof.
  intros Hin Hm. pose proof Hm as (H1 & H2 & H3)%mentions_host_false.
  destruct (contains_app_false _ _ _ H1) as [H1u H1v].
  destruct (contains_app_false _ _ _ H2) as [H2u H2v].
  destruct (contains_app_false _ _ _ H3) as [H3u H3v].
  unfold host_prefixes in Hin.
  rewrite !elem_of_cons, elem_of_nil in Hin.
  destruct Hin as [-> | [-> | [-> | []]]]; unfold without_hosts.
  - rewrite replace_around by done.
    rewrite (replace_absent _ _ _ H1u), (replace_absent _ _ _ H1v), app_nil_l.
    rewrite (replace_absent _ _ _ H2). apply replace_absent, H3.
  - rewrite (replace_absent "https://www.linkedin.com")
      by (apply contains_insert; done).
    rewrite replace_around by done.
    rewrite (replace_absent _ _ _ H2u), (replace_absent _ _ _ H2v), app_nil_l.
    apply replace_absent, H3.
  - rewrite (replace_absent "https://www.linkedin.com")
      by (apply contains_insert; done).
    rewrite (replace_absent "https://linkedin.com")
      by (apply contains_insert; done).
    rewrite replace_around by done.
    rewrite (replace_absent _ _ _ H3u), (replace_absent _ _ _ H3v), app_nil_l.
    reflexivity.
Qed.

(** C10, as the code has it: each [replace] call removes an occurrence of
    its host prefix wherever it stands in the text, not only in front, and
    scans the text before and behind it in the same way; a reference with
    an embedded host prefix gets the key of the reference without it when
    that reference names no host prefix itself. *)
Theorem normalize_removes_embedded_host (host u v : string) :
  host ∈ host_prefixes →
  replace host "" (u +:+ host +:+ v) = replace host "" u +:+ replace host "" v
  ∧ (mentions_host (u +:+ v) = false →
     normalize_linkedin_handle (u +:+ host +:+ v) = normalize_linkedin_handle (u +:+ v)).
Proof.
  intros Hin. split.
  - unfold host_prefixes in Hin. rewrite !elem_of_cons, elem_of_nil in Hin.
    destruct Hin as [-> | [-> | [-> | []]]]; by rewrite replace_around.
  - intros Hm. apply normalize_by_without_hosts.
    rewrite (without_hosts_embedded _ _ _ Hin Hm), (without_hosts_clean _ Hm).
    reflexivity.
Qed.

Lemma normalize_removes_embedded_host_witness :
  normalize_linkedin_handle ("jdoe" +:+ "https://linkedin.com" +:+ "/x")
  = normalize_linkedin_handle ("jdoe" +:+ "/x").
Proof.
  apply (normalize_removes_embedded_host "https://linkedin.com" "jdoe" "/x").
  - unfold host_prefixes. apply list_elem_of_further, list_elem_of_here.
  - reflexivity.
Defined.

(** C10 as stated fails where a removal joins the text around it into a new
    occurrence: the scan does not go back, the key still names the host, and
    the two references that differ by the embedded prefix get two keys. *)
Lemma normalize_splices_host :
  let u := "https://www.linkedin.c" in
  let v := "om" in
  normalize_linkedin_handle (u +:+ "https://www.linkedin.com" +:+ v)
    = "/in/https://www.linkedin.com"
  ∧ normalize_linkedin_handle (u +:+ v) = "/in/"
  ∧ ¬ (∀ host u v : string, host ∈ host_prefixes →
         normalize_linkedin_handle (u +:+ host +:+ v)
         = normalize_linkedin_handle (u +:+ v)).
Proof.
  split; [by vm_compute|]. split; [by vm_compute|].
  intros H.
  specialize (H "https://www.linkedin.com" "https://www.linkedin.c" "om"
                (list_elem_of_here _ _)).
  vm_compute in H. discriminate.
Qed.

Lemma normalize_idempotent_iff_witness :
  normalize_linkedin_handle (normalize_linkedin_handle "https://www.linkedin.com/in/Foo/")
  = normalize_linkedin_handle "https://www.linkedin.com/in/Foo/".
Proof.
  apply (proj2 (normalize_idempotent_iff "https://www.linkedin.com/in/Foo/")).
  split; [discriminate | reflexivity].
Defined.

End Normalizer.

(** ** Record builder and retry scheduler *)

Section BuilderFacts.
Variable json_dumps : profile → string.

(** C3: the miss path stores [prior + 1] as retry count, the clock value as
    [last_retry_at] and the clock value plus [(prior + 1)^2 * 5] minutes as
    [next_retry_after]; the backoff is 5, 20 and 45 minutes for the first
    three misses, and the cooldown grows strictly with the retry count. *)
Theorem retry_scheduler_backoff (now_ms : Z) (record : pending_record) (prior : Z) :
  let out := build_missing_profile_record now_ms record prior in
  new_retry_count prior = prior + 1
  ∧ backoff_minutes prior = new_retry_count prior ^ 2 * 5
  ∧ field "retry_count" out = Some (PInt (prior + 1))
  ∧ field "last_retry_at" out = Some (PInt now_ms)
  ∧ field "next_retry_after" out
    = Some (PInt (now_ms + backoff_minutes prior * 60000))
  ∧ (backoff_minutes 0 = 5 ∧ backoff_minutes 1 = 20 ∧ backoff_minutes 2 = 45)
  ∧ (∀ p q : Z, 0 ≤ p → p < q →
       next_retry_timestamp now_ms p - now_ms < next_retry_timestamp now_ms q - now_ms).
Proof.
  intros out. subst out. split_and!; try reflexivity.
  - cbn. unfold next_retry_timestamp. do 2 f_equal. lia.
  - intros p q Hp Hpq. unfold next_retry_timestamp, backoff_minutes, new_retry_count.
    nia.
Qed.

Lemma retry_scheduler_backoff_witness :
  next_retry_timestamp 1000 1 - 1000 < next_retry_timestamp 1000 2 - 1000.
Proof.
  pose proof (retry_scheduler_backoff 1000
    {| github_user_id := PInt 7; social_link_url := PNone; link_provider := PNone;
       linkedin_handle := "in/jdoe"; retry_count := 1 |} 1) as H.
  cbv zeta in H. destruct H as (_ & _ & _ & _ & _ & _ & Hmono).
  apply (Hmono 1 2); lia.
Defined.

(** C4, as the code has it: the miss path leaves every profile column and
    the raw-profile blob null, sets [profile_found] to false and stores the
    fixed message "Profile not returned by Apify API". *)
Theorem missing_record_fields (now_ms : Z) (record : pending_record) (prior : Z) :
  let out := build_missing_profile_record now_ms record prior in
  length out = length columns
  ∧ Forall (λ column, field column out = Some PNone) profile_columns
  ∧ field "profile_data" out = Some PNone
  ∧ field "profile_found" out = Some (PBool false)
  ∧ field "profile_fetch_message" out = Some (PStr "Profile not returned by Apify API")
  ∧ field "github_user_id" out = Some (github_user_id record)
  ∧ field "social_link_url" out = Some (social_link_url record)
  ∧ field "link_provider" out = Some (link_provider record)
  ∧ field "linkedin_handle" out = Some (PStr (linkedin_handle record))
  ∧ field "record_source" out = Some (PStr "apify").
Proof.
  intros out. subst out. split_and!; try reflexivity.
  cbv [profile_columns columns take drop].
  repeat (constructor; [reflexivity|]). constructor.
Qed.

(** C4 as stated fails on the message: it is not the text the claim gives. *)
Lemma missing_record_message_differs :
  let record := {| github_user_id := PInt 7; social_link_url := PNone;
                   link_provider := PNone; linkedin_handle := "in/jdoe";
                   retry_count := 0 |} in
  field "profile_fetch_message" (build_missing_profile_record 1000 record 0)
  ≠ Some (PStr "Profile not returned by provider").
Proof. intros record H. vm_compute in H. discriminate. Qed.




End BuilderFacts.

(** ** Record matcher *)

Section MatcherFacts.
Implicit Types (m : gmap string profile) (l : list profile) (p : profile).

(** What one turn of the loop does with a profile. *)
Inductive loop_turn (p : profile) : Prop :=
  | turn_store (k : string) :
      lookup_key p = Some k →
      (∀ rest m, create_lookup_loop (p :: rest) m = create_lookup_loop rest (<[k:=p]> m)) →
      loop_turn p
  | turn_skip :
      lookup_key p = None →
      (∀ rest m, create_lookup_loop (p :: rest) m = create_lookup_loop rest m) →
      loop_turn p
  | turn_raise :
      lookup_key p = None →
      (∀ rest m, create_lookup_loop (p :: rest) m = Raise AttributeError) →
      loop_turn p.

Lemma loop_turn_cases p : loop_turn p.
Proof.
  destruct (dict_get_default p "publicIdentifier" (PStr "")) as [| b | n | f | s | vs | d] eqn:E.
  - apply turn_skip; [unfold lookup_key | intros; simpl]; by rewrite E.
  - destruct b.
    + apply turn_raise; [unfold lookup_key | intros; simpl]; by rewrite E.
    + apply turn_skip; [unfold lookup_key | intros; simpl]; by rewrite E.
  - destruct (truthy (PInt n)) eqn:T.
    + apply turn_raise; [unfold lookup_key | intros; simpl]; by rewrite E, ?T.
    + apply turn_skip; [unfold lookup_key | intros; simpl]; by rewrite E, ?T.
  - destruct (truthy (PFloat f)) eqn:T.
    + apply turn_raise; [unfold lookup_key | intros; simpl]; by rewrite E, ?T.
    + apply turn_skip; [unfold lookup_key | intros; simpl]; by rewrite E, ?T.
  - destruct (truthy (PStr s)) eqn:T.
    + apply (turn_store _ (normalize_linkedin_handle s));
        [unfold lookup_key | intros; simpl]; by rewrite E, ?T.
    + apply turn_skip; [unfold lookup_key | intros; simpl]; by rewrite E, ?T.
  - destruct (truthy (PList vs)) eqn:T.
    + apply turn_raise; [unfold lookup_key | intros; simpl]; by rewrite E, ?T.
    + apply turn_skip; [unfold lookup_key | intros; simpl]; by rewrite E, ?T.
  - destruct (truthy (PDict d)) eqn:T.
    + apply turn_raise; [unfold lookup_key | intros; simpl]; by rewrite E, ?T.
    + apply turn_skip; [unfold lookup_key | intros; simpl]; by rewrite E, ?T.
Qed.

Lemma lookup_keys_cons p l :
  lookup_keys (p :: l)
  = match lookup_key p with Some k => k :: lookup_keys l | None => lookup_keys l end.
Proof. reflexivity. Qed.

(** The order of the profiles does not matter while their keys differ. *)
Lemma create_lookup_loop_perm l l' :
  l ≡ₚ l' → NoDup (lookup_keys l) →
  ∀ m, create_lookup_loop l m = create_lookup_loop l' m.
Proof.
  induction 1 as [| x l l' Hperm IH | x y l | l l' l'' H1 IH1 H2 IH2]; intros Hnd m.
  - reflexivity.
  - rewrite lookup_keys_cons in Hnd.
    destruct (loop_turn_cases x) as [k Hk Hx | Hk Hx | Hk Hx];
      rewrite Hk in Hnd; rewrite !Hx; [|by apply IH|done].
    apply NoDup_cons in Hnd as [_ Hnd]. by apply IH.
  - rewrite !lookup_keys_cons in Hnd.
    destruct (loop_turn_cases x) as [kx Hkx Hx | Hkx Hx | Hkx Hx];
      destruct (loop_turn_cases y) as [ky Hky Hy | Hky Hy | Hky Hy];
      rewrite Hkx, Hky in Hnd; rewrite ?Hx, ?Hy, ?Hx; try done.
    apply NoDup_cons in Hnd as [Hne _]. rewrite elem_of_cons in Hne.
    rewrite insert_insert_ne; [done|]. intros ->. apply Hne. by left.
  - rewrite IH1 by done. apply IH2.
    unfold lookup_keys in *. by rewrite <- H1.
Qed.

Lemma create_lookup_loop_app l1 l2 m :
  create_lookup_loop (l1 ++ l2) m
  = match create_lookup_loop l1 m with
    | Ok m1 => create_lookup_loop l2 m1
    | Raise e => Raise e
    end.
Proof.
  revert m. induction l1 as [|p l1 IH]; intros m; [reflexivity|].
  rewrite <- app_comm_cons.
  destruct (loop_turn_cases p) as [k Hk Hp | Hk Hp | Hk Hp]; rewrite !Hp; auto.
Qed.

(** The loop leaves alone every key it does not store. *)
Lemma create_lookup_loop_other l m m' k :
  create_lookup_loop l m = Ok m' → k ∉ lookup_keys l → m' !! k = m !! k.
Proof.
  revert m. induction l as [|p l IH]; intros m Hrun Hk.
  - simpl in Hrun. by inversion Hrun.
  - rewrite lookup_keys_cons in Hk.
    destruct (loop_turn_cases p) as [k' Hk' Hp | Hk' Hp | Hk' Hp];
      rewrite Hk' in Hk; rewrite Hp in Hrun; [| by apply IH | discriminate].
    rewrite not_elem_of_cons in Hk. destruct Hk as [Hne Hk].
    rewrite (IH _ Hrun Hk). by apply lookup_insert_ne.
Qed.

(** The last profile stored under a key is the one the lookup holds. *)
Lemma create_lookup_last_wins before later after k m :
  lookup_key later = Some k → k ∉ lookup_keys after →
  create_lookup_from_apify_profiles (before ++ later :: after) = Ok m →
  m !! k = Some later.
Proof.
  intros Hk Hafter. unfold create_lookup_from_apify_profiles.
  rewrite create_lookup_loop_app.
  destruct (create_lookup_loop before ∅) as [m1|e]; [|discriminate].
  destruct (loop_turn_cases later) as [k' Hk' Hp | Hk' Hp | Hk' Hp];
    rewrite Hk' in Hk; simplify_eq.
  rewrite Hp. intros Hrun.
  rewrite (create_lookup_loop_other _ _ _ _ Hrun Hafter). apply lookup_insert_eq.
Qed.

(** C7: the lookup, and with it the partition of any pending records, is
    the same for every order of a profile list whose keys are pairwise
    distinct; a record is matched through its normalized handle alone; and
    of several profiles with one key the last in the list is the match. *)
Theorem matching_by_normalized_handle
    (apify_profiles permuted before after : list profile)
    (later : profile) (key : string) :
  (apify_profiles ≡ₚ permuted → NoDup (lookup_keys apify_profiles) →
     create_lookup_from_apify_profiles permuted
     = create_lookup_from_apify_profiles apify_profiles
     ∧ ∀ lookup lookup' pending_records,
         create_lookup_from_apify_profiles apify_profiles = Ok lookup →
         create_lookup_from_apify_profiles permuted = Ok lookup' →
         partition_records_by_profile_availability pending_records lookup'
         = partition_records_by_profile_availability pending_records lookup)
  ∧ (∀ (lookup : gmap string profile) record record',
       normalize_linkedin_handle (linkedin_handle record)
       = normalize_linkedin_handle (linkedin_handle record') →
       match_record_to_apify_profile record lookup
       = match_record_to_apify_profile record' lookup)
  ∧ (lookup_key later = Some key → key ∉ lookup_keys after →
     ∀ lookup,
       create_lookup_from_apify_profiles (before ++ later :: after) = Ok lookup →
       ∀ record,
         normalize_linkedin_handle (linkedin_handle record) = key →
         match_record_to_apify_profile record lookup = Some later).
Proof.
  split_and!.
  - intros Hperm Hnd.
    assert (create_lookup_from_apify_profiles permuted
            = create_lookup_from_apify_profiles apify_profiles) as Heq
      by (symmetry; by apply create_lookup_loop_perm).
    split; [exact Heq|]. intros lookup lookup' pending H H'.
    rewrite Heq, H in H'. by inversion H'.
  - intros lookup record record' H. unfold match_record_to_apify_profile.
    by rewrite H.
  - intros Hk Hafter lookup Hrun record <-.
    unfold match_record_to_apify_profile.
    by eapply create_lookup_last_wins.
Qed.

(** Each record goes to one of the two lists. *)
Lemma partition_permutation pending_records (lookup : gmap string profile) :
  pending_records
  ≡ₚ (partition_records_by_profile_availability pending_records lookup).1.*2
     ++ (partition_records_by_profile_availability pending_records lookup).2.
Proof.
  induction pending_records as [|record rest IH]; [done|].
  simpl. destruct (partition_records_by_profile_availability rest lookup) as [w wo].
  simpl in IH.
  destruct (match_record_to_apify_profile record lookup) as [[|kv p]|]; simpl.
  - by rewrite <- Permutation_middle, <- IH.
  - apply perm_skip, IH.
  - by rewrite <- Permutation_middle, <- IH.
Qed.

Lemma partition_length pending_records (lookup : gmap string profile) :
  length pending_records
  = (length (partition_records_by_profile_availability pending_records lookup).1
     + length (partition_records_by_profile_availability pending_records lookup).2)%nat.
Proof.
  rewrite (partition_permutation pending_records lookup) at 1.
  by rewrite length_app, length_fmap.
Qed.

End MatcherFacts.

(** ** Selection query *)

Section SelectionFacts.

Lemma holds_and3 a b : Sql.holds (Sql.and3 a b) = Sql.holds a && Sql.holds b.
Proof. by destruct a as [[]|], b as [[]|]. Qed.

Lemma holds_or3 a b : Sql.holds (Sql.or3 a b) = Sql.holds a || Sql.holds b.
Proof. by destruct a as [[]|], b as [[]|]. Qed.

Lemma holds_is_not_null {A} (x : option A) :
  Sql.holds (Sql.is_not_null x) = true ↔ is_Some x.
Proof. destruct x; simpl; split; done. Qed.

Lemma holds_is_null {A} (x : option A) :
  Sql.holds (Sql.is_null x) = true ↔ x = None.
Proof. by destruct x. Qed.

Lemma holds_is_false x : Sql.holds (Sql.is_false x) = true ↔ x = Some false.
Proof. by destruct x as [[]|]. Qed.

Lemma holds_lt x b :
  Sql.holds (Sql.lt x (Some b)) = true ↔ ∃ a, x = Some a ∧ a < b.
Proof.
  destruct x as [a|]; simpl.
  - destruct (Z.ltb_spec a b); split; try done.
    + intros _. by exists a.
    + intros (a' & ? & ?). simplify_eq. lia.
  - split; [done | by intros (? & ? & ?)].
Qed.

(** The WHERE clause is the eligibility policy. *)
Lemma where_clause_eligible now lud :
  Sql.holds (where_clause now lud) = true ↔ eligible now lud.
Proof.
  unfold where_clause, eligible.
  repeat (rewrite holds_and3 || rewrite holds_or3
          || rewrite andb_true_iff || rewrite orb_true_iff).
  rewrite holds_is_not_null, !holds_is_null, holds_is_false, !holds_lt.
  split; intros (Hh & [Hnever | (Hfailed & Hretry)]); (split; [exact Hh|]);
    [by left | right | by left | right]; (split; [exact Hfailed|]).
  - destruct Hretry as ((n & Hn & Hlt) & Hcool). eauto.
  - destruct Hretry as (n & Hn & Hlt & Hcool). eauto.
Qed.

Lemma selected_rows_filter table now limit lud :
  lud ∈ selected_rows table now limit →
  lud ∈ table ∧ Sql.holds (where_clause now lud) = true.
Proof.
  unfold selected_rows. intros Hin%subseteq_take.
  rewrite merge_sort_Permutation in Hin.
  apply list_elem_of_filter in Hin as [Hw Hin]. split; [done|].
  by destruct (Sql.holds (where_clause now lud)).
Qed.

(** C2: every row the query selects is in the table and is eligible: it
    has a handle and was never attempted, or it failed, has a retry count
    below 3 and no cooldown left; a failed row with retry count 3 or more
    is not selected at any time; the function returns the selected rows
    when the connection opens. *)
Theorem selection_eligibility (table : list user_details_row) (now : Z)
    (limit : nat) (lud : user_details_row) :
  (lud ∈ selected_rows table now limit → lud ∈ table ∧ eligible now lud)
  ∧ (lud_profile_found lud = Some false →
     (∃ n, lud_retry_count lud = Some n ∧ 3 ≤ n) →
     lud ∉ selected_rows table now limit)
  ∧ (lud ∈ selected_rows table now limit →
     lud_linkedin_handle lud = Some (linkedin_handle (select_list lud)))
  ∧ (length (selected_rows table now limit) ≤ limit)%nat
  ∧ (∀ now_ms connection_opens w,
       user_details w = table → now_ms (clock_reads w) = now →
       (fetch_records_pending_for_enrichment now_ms connection_opens limit w).1
       = Ok (if connection_opens (connections w)
             then Some (select_list <$> selected_rows table now limit)
             else None)).
Proof.
  split_and!.
  - intros [Hin Hw]%selected_rows_filter. split; [done|].
    by apply where_clause_eligible.
  - intros Hf (n & Hn & Hge) [_ Hw]%selected_rows_filter.
    apply where_clause_eligible in Hw as [_ [Hnone | (_ & n' & Hn' & Hlt & _)]];
      simplify_eq. lia.
  - intros [_ Hw]%selected_rows_filter.
    apply where_clause_eligible in Hw as [[h Hh] _].
    unfold select_list. simpl. by rewrite Hh.
  - unfold selected_rows. rewrite length_take. lia.
  - intros now_ms connection_opens w <- <-.
    unfold fetch_records_pending_for_enrichment, mbind, M_bind. simpl.
    by destruct (connection_opens (connections w)).
Qed.

End SelectionFacts.

(** ** Orchestrator *)

Section OrchestratorFacts.
Variable now_ms : nat → Z.
Variable connection_opens : nat → bool.
Variable get_linkedin_profiles : list string → result (list profile).
Variable upsert_multiple_records : list outcome_record → result unit.
Variable json_dumps : profile → string.

Local Abbreviation fetch := (fetch_records_pending_for_enrichment now_ms connection_opens).
Local Abbreviation upsert := (upsert_linkedin_profiles connection_opens upsert_multiple_records).
Local Abbreviation run :=
  (enrich_linkedin_profiles now_ms connection_opens get_linkedin_profiles
     upsert_multiple_records json_dumps).

(** The selection reads the clock and opens a connection once. *)
Lemma fetch_spec limit w :
  fetch limit w
  = (Ok (if connection_opens (connections w)
         then Some (pending_query (user_details w) (now_ms (clock_reads w)) limit)
         else None),
     {| user_details := user_details w; clock_reads := S (clock_reads w);
        connections := S (connections w); upserts := upserts w |}).
Proof.
  unfold fetch_records_pending_for_enrichment, mbind, M_bind. simpl.
  by destruct (connection_opens (connections w)).
Qed.

(** The miss path never raises and writes nothing: one record per input. *)
Lemma for_each_missing_spec c l w :
  ∃ ys w',
    for_each (λ record, build_missing_profile_record_now now_ms record c) l w
    = (Ok ys, w')
    ∧ upserts w' = upserts w
    ∧ Forall2 (λ record y, ∃ t, y = build_missing_profile_record t record c) l ys.
Proof.
  revert w. induction l as [|record l IH]; intros w.
  - exists [], w. by split_and!.
  - simpl. unfold mbind, M_bind. simpl.
    destruct (IH {| user_details := user_details w; clock_reads := S (clock_reads w);
                    connections := connections w; upserts := upserts w |})
      as (ys & w' & -> & Hup & Hall).
    eexists _, _. split_and!; [reflexivity | exact Hup |].
    constructor; [by eexists | exact Hall].
Qed.

(** The store has the batch or it has nothing new. *)
Lemma upsert_spec rows w :
  upserts (upsert rows w).2 = upserts w
  ∨ upserts (upsert rows w).2 = upserts w ++ [rows].
Proof.
  unfold upsert_linkedin_profiles. destruct rows as [|row rows]; [by left|].
  unfold mbind, M_bind, try_except, call_upsert_multiple_records. simpl.
  destruct (connection_opens (connections w)); simpl; [|by left].
  destruct (upsert_multiple_records (row :: rows)) as [u|e]; simpl; [by right|].
  destruct (is_exception e); by left.
Qed.

(** C9: when the call of the fetch collaborator raises, the run ends with
    that exception and the store has received nothing. *)
Theorem fetch_failure_aborts_write (batch_size : nat) (w : world)
    (pending_records : list pending_record) (e : exn) :
  (fetch batch_size w).1 = Ok (Some pending_records) →
  pending_records ≠ [] →
  get_linkedin_profiles
    ((λ record, "https://www.linkedin.com/" +:+ linkedin_handle record)
       <$> pending_records) = Raise e →
  (run batch_size w).1 = Raise e
  ∧ upserts (run batch_size w).2 = upserts w
  ∧ persisted (run batch_size w).2 = persisted w.
Proof.
  rewrite fetch_spec. simpl. intros Hsel Hne Hfail. unfold persisted.
  destruct (run batch_size w) as [res w'] eqn:Hrun. simpl.
  unfold enrich_linkedin_profiles, mbind at 1, M_bind at 1 in Hrun.
  rewrite fetch_spec in Hrun.
  destruct (connection_opens (connections w)); [|discriminate].
  injection Hsel as Hsel. rewrite Hsel in Hrun.
  destruct pending_records as [|record rest]; [done|].
  unfold mbind at 1, M_bind at 1, call_get_linkedin_profiles in Hrun.
  rewrite Hfail in Hrun. by simplify_eq.
Qed.

End OrchestratorFacts.

(** ** Runs on sample data *)

Section Scenarios.
Import Sample.

(** A never attempted record whose profile the provider returns. *)
Example scenario_success :
  persisted
    (enrich_linkedin_profiles clock always_connected (provider_returns [jdoe])
       store_accepts dumps 5 (world_of [never_attempted])).2
  = [build_enriched_profile_record dumps jdoe pending_jdoe].
Proof. vm_compute. reflexivity. Qed.

(** The same record when the provider returns nothing: first miss. *)
Example scenario_first_miss :
  persisted
    (enrich_linkedin_profiles clock always_connected (provider_returns [])
       store_accepts dumps 5 (world_of [never_attempted])).2
  = [build_missing_profile_record 5001 pending_jdoe 0]
  ∧ field "retry_count" (build_missing_profile_record 5001 pending_jdoe 0)
    = Some (PInt 1)
  ∧ field "next_retry_after" (build_missing_profile_record 5001 pending_jdoe 0)
    = Some (PInt (5001 + 5 * 60000)).
Proof. by vm_compute. Qed.

(** C1 fails on the code: the run calls the miss path without the record's
    retry count, so the builder counts from its default 0. A record selected
    with retry count 2 that misses again is stored with retry count 1, not 3,
    and with the 5 minute cooldown of a first miss. *)
Theorem miss_retry_count_not_incremented :
  let w := world_of [failed_twice] in
  let run :=
    enrich_linkedin_profiles clock always_connected (provider_returns [])
      store_accepts dumps 5 w in
  (fetch_records_pending_for_enrichment clock always_connected 5 w).1
  = Ok (Some [select_list failed_twice])
  ∧ retry_count (select_list failed_twice) = 2
  ∧ persisted run.2
    = [build_missing_profile_record 5001 (select_list failed_twice)
         default_current_retry_count]
  ∧ Forall (λ out, field "profile_found" out = Some (PBool false)
                   ∧ field "retry_count" out = Some (PInt 1)
                   ∧ field "retry_count" out ≠ Some (PInt 3)
                   ∧ field "next_retry_after" out = Some (PInt (5001 + 5 * 60000)))
      (persisted run.2)
  ∧ (∀ now record,
       field "retry_count"
         (build_missing_profile_record now record default_current_retry_count)
       = Some (PInt 1)).
Proof.
  intros w run. split_and!; try reflexivity.
  assert (persisted run.2
          = [build_missing_profile_record 5001 (select_list failed_twice)
               default_current_retry_count]) as -> by (by vm_compute).
  constructor; [|constructor]. split_and!; try reflexivity. by vm_compute.
Qed.


Lemma selection_eligibility_witness :
  (failed_thrice ∉ selected_rows [failed_thrice; never_attempted] 1000000 5)
  ∧ eligible 1000000 never_attempted.
Proof.
  split.
  - apply (selection_eligibility [failed_thrice; never_attempted] 1000000 5 failed_thrice).
    + reflexivity.
    + exists 3. split; [reflexivity | lia].
  - apply (selection_eligibility [failed_thrice; never_attempted] 1000000 5 never_attempted).
    assert (selected_rows [failed_thrice; never_attempted] 1000000 5 = [never_attempted])
      as -> by (by vm_compute).
    apply list_elem_of_here.
Defined.

Lemma matching_by_normalized_handle_witness :
  create_lookup_from_apify_profiles [asmith; jdoe]
  = create_lookup_from_apify_profiles [jdoe; asmith]
  ∧ match_record_to_apify_profile pending_jdoe
      (<["/in/jdoe" := jdoe_upper]> (<["/in/jdoe" := jdoe]> ∅))
    = Some jdoe_upper.
Proof.
  destruct (matching_by_normalized_handle [jdoe; asmith] [asmith; jdoe]
              [jdoe] [] jdoe_upper "/in/jdoe") as (Hperm & _ & Hlast).
  split.
  - apply Hperm; [apply perm_swap|].
    assert (lookup_keys [jdoe; asmith] = ["/in/jdoe"; "/in/asmith"]) as ->
      by (by vm_compute).
    apply NoDup_cons. split; [|apply NoDup_singleton].
    rewrite list_elem_of_singleton. discriminate.
  - apply Hlast; [reflexivity | apply not_elem_of_nil | reflexivity | reflexivity].
Defined.

Lemma fetch_failure_aborts_write_witness :
  let w := world_of [never_attempted] in
  (enrich_linkedin_profiles clock always_connected provider_times_out
     store_accepts dumps 5 w).1 = Raise (CollaboratorError "timeout")
  ∧ persisted
      (enrich_linkedin_profiles clock always_connected provider_times_out
         store_accepts dumps 5 w).2 = persisted w.
Proof.
  intros w.
  destruct (fetch_failure_aborts_write clock always_connected provider_times_out
              store_accepts dumps 5 w [pending_jdoe] (CollaboratorError "timeout"))
    as (Hres & _ & Hpers); [by vm_compute | discriminate | reflexivity |].
  split; [exact Hres | exact Hpers].
Defined.

End Scenarios.

(** * Further properties *)

(** ** Handle normalizer: forms of a reference *)

Section NormalizerForms.
Import Str StrFacts.

Lemma lstrip_id c s : startswith s (String c "") = false → lstrip c s = s.
Proof.
  destruct s as [|a s]; [done|]. simpl.
  rewrite Ascii.eqb_sym. by destruct (Ascii.eqb a c).
Qed.

Lemma rstrip_snoc c s : rstrip c (s +:+ String c "") = rstrip c s.
Proof.
  induction s as [|a s IH].
  - simpl. by rewrite Ascii.eqb_refl.
  - rewrite app_cons. simpl. by rewrite IH.
Qed.

(** A pattern that does not end in a slash ends before a final slash. *)
Lemma startswith_snoc_slash p s :
  endswith_char "/" p = false →
  startswith (s +:+ "/") p = true → startswith s p = true.
Proof.
  revert s. induction p as [|c p IH]; intros s He H; [done|].
  destruct s as [|b s].
  - rewrite app_nil_l in H. simpl in H.
    destruct (Ascii.eqb c "/") eqn:Ec; [|done].
    destruct p; [|done]. simpl in He. congruence.
  - rewrite app_cons in H. simpl in H |- *.
    destruct (Ascii.eqb c b); [|done].
    destruct p as [|c' p]; [done|]. by apply IH.
Qed.

Lemma contains_snoc_slash p s :
  endswith_char "/" p = false →
  contains s p = false → contains (s +:+ "/") p = false.
Proof.
  intros He. induction s as [|a s IH]; intros H.
  - destruct p as [|c p]; [done|]. rewrite app_nil_l. simpl.
    destruct (Ascii.eqb c "/") eqn:Ec; [|done].
    destruct p; [|done]. simpl in He. congruence.
  - rewrite contains_cons in H. apply orb_false_iff in H as [H1 H2].
    rewrite app_cons, contains_cons, (IH H2), orb_false_r.
    destruct (startswith (String a (s +:+ "/")) p) eqn:E; [|done].
    apply (startswith_snoc_slash p (String a s) He) in E. congruence.
Qed.

Lemma mentions_host_skip w v :
  has_char "h" w = false → mentions_host (w +:+ v) = mentions_host v.
Proof.
  intros Hw. unfold mentions_host, host_prefixes. cbn [existsb].
  by rewrite !contains_skip_no_head.
Qed.

Lemma mentions_host_snoc_slash s :
  mentions_host s = false → mentions_host (s +:+ "/") = false.
Proof.
  intros (H1 & H2 & H3)%mentions_host_false. apply mentions_host_false.
  split_and!; by apply contains_snoc_slash.
Qed.

(** The key of a text that begins with [in/], names no host and does not
    end in a slash. *)
Lemma normalize_in_path lead h :
  lead = "" ∨ lead = "/" →
  h ≠ "" → mentions_host h = false → endswith_char "/" h = false →
  normalize_linkedin_handle (lead +:+ "in/" +:+ h) = "/in/" +:+ lower h.
Proof.
  intros Hlead Hne Hm He.
  rewrite normalize_unfold, without_hosts_clean; cbv zeta.
  - unfold strip.
    assert (lstrip "/" (lead +:+ "in/" +:+ h) = "in/" +:+ h) as ->
      by (by destruct Hlead as [-> | ->]).
    rewrite rstrip_id by (by rewrite endswith_char_app).
    by rewrite startswith_app.
  - destruct Hlead as [-> | ->]; by rewrite ?app_nil_l, !mentions_host_skip.
Qed.

(** The key of a bare handle. *)
Lemma normalize_bare_form h :
  bare_handle h → normalize_linkedin_handle h = "/in/" +:+ lower h.
Proof.
  intros (Hne & Hm & Hlead & Htrail & Hin).
  rewrite normalize_unfold, without_hosts_clean by done. cbv zeta.
  unfold strip. rewrite lstrip_id, rstrip_id by done. by rewrite Hin.
Qed.

(** X1: every form of a reference to a bare handle gets the key [/in/]
    followed by the handle in lower case: the handle alone, the handle with
    [in/] or [/in/] in front, and the full URL on any of the three hosts,
    with or without a final slash. *)
Theorem normalize_forms_agree (h host : string) :
  bare_handle h → host ∈ host_prefixes →
  normalize_linkedin_handle h = "/in/" +:+ lower h
  ∧ normalize_linkedin_handle ("in/" +:+ h) = "/in/" +:+ lower h
  ∧ normalize_linkedin_handle ("/in/" +:+ h) = "/in/" +:+ lower h
  ∧ normalize_linkedin_handle (host +:+ "/in/" +:+ h) = "/in/" +:+ lower h
  ∧ normalize_linkedin_handle (host +:+ "/in/" +:+ h +:+ "/") = "/in/" +:+ lower h.
Proof.
  intros (Hne & Hm & Hlead & Htrail & Hin) Hhost.
  assert (normalize_linkedin_handle ("/in/" +:+ h) = "/in/" +:+ lower h) as Hpath
    by (by apply (normalize_in_path "/"); [right|..]).
  assert (mentions_host ("/in/" +:+ h) = false) as Hmp
    by (by rewrite mentions_host_skip).
  split_and!.
  - by apply normalize_bare_form.
  - by apply (normalize_in_path ""); [left|..].
  - exact Hpath.
  - rewrite <- Hpath. apply normalize_by_without_hosts.
    pose proof (without_hosts_embedded host "" ("/in/" +:+ h) Hhost) as Hw.
    rewrite !app_nil_l in Hw. by rewrite Hw, without_hosts_clean.
  - rewrite <- Hpath. rewrite !normalize_unfold.
    pose proof (without_hosts_embedded host "" ("/in/" +:+ h +:+ "/") Hhost) as Hw.
    rewrite !app_nil_l in Hw.
    rewrite Hw by (rewrite <- app_assoc; by apply mentions_host_snoc_slash).
    rewrite (without_hosts_clean _ Hmp). cbv zeta.
    unfold strip.
    assert (lstrip "/" ("/in/" +:+ h +:+ "/") = ("in/" +:+ h) +:+ "/") as ->
      by (by rewrite app_assoc).
    by rewrite rstrip_snoc.
Qed.

Lemma normalize_forms_agree_witness :
  normalize_linkedin_handle ("https://linkedin.com" +:+ "/in/" +:+ "ArtsOfBaniya" +:+ "/")
  = "/in/" +:+ lower "ArtsOfBaniya".
Proof.
  apply (normalize_forms_agree "ArtsOfBaniya" "https://linkedin.com").
  - by split_and!.
  - apply list_elem_of_further, list_elem_of_here.
Defined.

(** X2: the key ends in a slash only when it is the bare [/in/], and it is
    the bare [/in/] exactly when nothing but slashes is left of the
    reference once the host prefixes are removed. *)
Theorem normalize_bare_key (x : string) :
  (endswith_char "/" (normalize_linkedin_handle x) = true
   ↔ normalize_linkedin_handle x = "/in/")
  ∧ (normalize_linkedin_handle x = "/in/" ↔ strip "/" (without_hosts x) = "").
Proof.
  split.
  - destruct (normalize_shape x) as (t & -> & He). split.
    + destruct t as [|c t]; [done|].
      rewrite endswith_char_app, endswith_char_lower by done. congruence.
    + intros H. by rewrite H.
  - pose proof (strip_endswith "/" (without_hosts x)) as He.
    rewrite normalize_unfold. cbv zeta.
    destruct (startswith (strip "/" (without_hosts x)) "in/") eqn:E; cbn [negb].
    + destruct (startswith_inv _ _ E) as [t Ht]. rewrite Ht in He |- *.
      destruct t as [|c t]; [done|]. split; discriminate.
    + destruct (strip "/" (without_hosts x)); split; done.
Qed.

End NormalizerForms.

(** ** Record matcher: what the lookup holds *)

Section LookupFacts.
Implicit Types (m : gmap string profile) (l : list profile) (p : profile).

Lemma create_lookup_loop_cons p rest m :
  create_lookup_loop (p :: rest) m
  = if identifier_raises p then Raise AttributeError
    else create_lookup_loop rest (store_profile m p).
Proof.
  unfold identifier_raises, store_profile, lookup_key. cbn [create_lookup_loop].
  destruct (dict_get_default p "publicIdentifier" (PStr "")) as [| b | n | f | s | vs | d].
  - done.
  - by destruct b.
  - by destruct (truthy (PInt n)).
  - by destruct (truthy (PFloat f)).
  - by destruct (truthy (PStr s)).
  - by destruct (truthy (PList vs)).
  - by destruct (truthy (PDict d)).
Qed.

Lemma create_lookup_loop_fold l m :
  create_lookup_loop l m
  = if existsb identifier_raises l then Raise AttributeError
    else Ok (foldl store_profile m l).
Proof.
  revert m. induction l as [|p l IH]; intros m; [done|].
  rewrite create_lookup_loop_cons. cbn [existsb foldl].
  destruct (identifier_raises p); [done|]. apply IH.
Qed.

(** X3: the lookup is built exactly when no profile has a truthy
    [publicIdentifier] that is not a string; such a profile makes the call
    raise [AttributeError] wherever it stands in the list. Otherwise the
    result is the map the profiles are stored into, one after the other. *)
Theorem create_lookup_raises_or_folds (apify_profiles : list profile) :
  create_lookup_from_apify_profiles apify_profiles
  = if existsb identifier_raises apify_profiles then Raise AttributeError
    else Ok (foldl store_profile ∅ apify_profiles).
Proof. apply create_lookup_loop_fold. Qed.

Lemma foldl_store_lookup l m k :
  foldl store_profile m l !! k
  = match last (filter (λ p, lookup_key p = Some k) l) with
    | Some p => Some p
    | None => m !! k
    end.
Proof.
  revert m. induction l as [|p l IH]; intros m; [done|].
  cbn [foldl]. rewrite IH. unfold store_profile.
  destruct (decide (lookup_key p = Some k)) as [Hk|Hk].
  - rewrite filter_cons_True, last_cons, Hk by done.
    destruct (last _); [done|]. apply lookup_insert_eq.
  - rewrite filter_cons_False by done.
    destruct (last _); [done|].
    destruct (lookup_key p) as [k'|]; [|done].
    apply lookup_insert_ne. congruence.
Qed.

Lemma create_lookup_lookup l m k :
  create_lookup_from_apify_profiles l = Ok m →
  m !! k = last (filter (λ p, lookup_key p = Some k) l).
Proof.
  unfold create_lookup_from_apify_profiles. rewrite create_lookup_loop_fold.
  intros Hrun. destruct (existsb identifier_raises l); simplify_eq.
  rewrite foldl_store_lookup. by destruct (last _).
Qed.

Lemma create_lookup_sound l m k p :
  create_lookup_from_apify_profiles l = Ok m →
  m !! k = Some p → p ∈ l ∧ lookup_key p = Some k.
Proof.
  intros Hrun Hp. rewrite (create_lookup_lookup _ _ _ Hrun) in Hp.
  apply last_Some_elem_of, list_elem_of_filter in Hp. by destruct Hp.
Qed.

(** X4: under a key the lookup holds the last profile of the list whose
    normalized [publicIdentifier] is that key, and nothing when there is
    none; so every profile in the lookup is one of the list, stored under
    its own key, and the keys of the lookup are the keys of the list. *)
Theorem create_lookup_entries (apify_profiles : list profile)
    (lookup : gmap string profile) :
  create_lookup_from_apify_profiles apify_profiles = Ok lookup →
  (∀ k, lookup !! k = last (filter (λ p, lookup_key p = Some k) apify_profiles))
  ∧ (∀ k p, lookup !! k = Some p → p ∈ apify_profiles ∧ lookup_key p = Some k)
  ∧ (∀ k, is_Some (lookup !! k) ↔ k ∈ lookup_keys apify_profiles).
Proof.
  intros Hrun. split_and!.
  - intros k. by apply create_lookup_lookup.
  - intros k p. by apply create_lookup_sound.
  - intros k. rewrite (create_lookup_lookup _ _ k Hrun), last_is_Some.
    unfold lookup_keys. rewrite list_elem_of_omap. split.
    + intros Hne. destruct (filter _ _) as [|p ps] eqn:E; [done|].
      assert (p ∈ filter (λ p, lookup_key p = Some k) apify_profiles) as Hin
        by (rewrite E; apply list_elem_of_here).
      apply list_elem_of_filter in Hin as [Hk Hin]. by exists p.
    + intros (p & Hin & Hk) E.
      assert (p ∈ filter (λ p, lookup_key p = Some k) apify_profiles) as Hp
        by (by apply list_elem_of_filter).
      rewrite E in Hp. by apply not_elem_of_nil in Hp.
Qed.

(** X5: a profile whose [publicIdentifier] is absent, [None], empty or
    otherwise falsy is passed over: the lookup is the one of the list
    without it. *)
Theorem create_lookup_skips_unidentified (before after : list profile)
    (apify_profile : profile) :
  truthy (dict_get_default apify_profile "publicIdentifier" (PStr "")) = false →
  create_lookup_from_apify_profiles (before ++ apify_profile :: after)
  = create_lookup_from_apify_profiles (before ++ after).
Proof.
  intros Hfalsy. unfold create_lookup_from_apify_profiles.
  rewrite !create_lookup_loop_app.
  destruct (create_lookup_loop before ∅) as [m|e]; [|done].
  rewrite create_lookup_loop_cons.
  unfold identifier_raises, store_profile, lookup_key.
  destruct (dict_get_default apify_profile "publicIdentifier" (PStr ""));
    by rewrite ?Hfalsy.
Qed.

(** The lookup holds no empty profile: a stored profile has an identifier. *)
Lemma create_lookup_truthy l m k p :
  create_lookup_from_apify_profiles l = Ok m →
  m !! k = Some p → truthy (PDict p) = true.
Proof.
  intros Hrun Hp. destruct (create_lookup_sound _ _ _ _ Hrun Hp) as [_ Hk].
  by destruct p.
Qed.

Lemma partition_cons record rest (lookup : gmap string profile) :
  partition_records_by_profile_availability (record :: rest) lookup
  = let rec := partition_records_by_profile_availability rest lookup in
    match match_record_to_apify_profile record lookup with
    | Some apify_profile =>
        if truthy (PDict apify_profile)
        then ((apify_profile, record) :: rec.1, rec.2)
        else (rec.1, record :: rec.2)
    | None => (rec.1, record :: rec.2)
    end.
Proof.
  cbn [partition_records_by_profile_availability].
  by destruct (partition_records_by_profile_availability rest lookup).
Qed.

(** X6: the partition keeps the order of the pending records in both
    lists: the matched list holds, in order, the records whose normalized
    handle has a non-empty profile in the lookup, each with that profile,
    and the missing list holds the others in order; a record whose entry is
    an empty profile is missing. *)
Theorem partition_in_order (pending_records : list pending_record)
    (lookup : gmap string profile) :
  let '(with_profiles, without_profiles) :=
    partition_records_by_profile_availability pending_records lookup in
  with_profiles.*2 = filter (λ record, has_profile lookup record) pending_records
  ∧ without_profiles
    = filter (λ record, ¬ has_profile lookup record) pending_records
  ∧ Forall (λ '(apify_profile, record),
              match_record_to_apify_profile record lookup = Some apify_profile
              ∧ apify_profile ≠ [])
      with_profiles
  ∧ (∀ record, record ∈ pending_records →
       match_record_to_apify_profile record lookup = Some [] →
       record ∈ without_profiles).
Proof.
  destruct (partition_records_by_profile_availability pending_records lookup)
    as [with_profiles without_profiles] eqn:Hpart.
  revert with_profiles without_profiles Hpart.
  induction pending_records as [|record rest IH]; intros w wo Hpart.
  { cbn in Hpart. simplify_eq. by split_and!. }
  rewrite partition_cons in Hpart. cbv zeta in Hpart.
  destruct (partition_records_by_profile_availability rest lookup) as [w' wo'].
  destruct (IH w' wo' eq_refl) as (IHw & IHwo & IHall & IHempty).
  cbn [fst snd] in Hpart.
  assert (has_profile lookup record
          = match match_record_to_apify_profile record lookup with
            | Some apify_profile => truthy (PDict apify_profile)
            | None => false
            end) as Hhas by done.
  destruct (match_record_to_apify_profile record lookup) as [p|] eqn:Hm;
    [destruct (truthy (PDict p)) eqn:Ht|]; simplify_eq.
  - assert (Is_true (has_profile lookup record)) as Hyes by (by rewrite Hhas).
    split_and!.
    + rewrite fmap_cons, filter_cons_True by done. by f_equal.
    + by rewrite filter_cons_False by (intros Hn; by apply Hn).
    + constructor; [|done]. split; [done|]. by intros ->.
    + intros r [-> | Hin]%elem_of_cons Hr; [|by apply IHempty].
      rewrite Hm in Hr. by simplify_eq.
  - assert (¬ has_profile lookup record) as Hno by (rewrite Hhas; intros []).
    split_and!.
    + by rewrite filter_cons_False.
    + rewrite filter_cons_True by done. by f_equal.
    + done.
    + intros r [-> | Hin]%elem_of_cons Hr; [apply list_elem_of_here|].
      apply list_elem_of_further. by apply IHempty.
  - assert (¬ has_profile lookup record) as Hno by (rewrite Hhas; intros []).
    split_and!.
    + by rewrite filter_cons_False.
    + rewrite filter_cons_True by done. by f_equal.
    + done.
    + intros r [-> | Hin]%elem_of_cons Hr; [apply list_elem_of_here|].
      apply list_elem_of_further. by apply IHempty.
Qed.

(** X7: with a lookup built from the provider's profiles, the test of the
    partition never discards an entry: a record is missing exactly when the
    lookup has nothing under its normalized handle, and a matched record is
    paired with the entry under its normalized handle. *)
Theorem partition_with_built_lookup (apify_profiles : list profile)
    (lookup : gmap string profile) (pending_records : list pending_record) :
  create_lookup_from_apify_profiles apify_profiles = Ok lookup →
  let '(with_profiles, without_profiles) :=
    partition_records_by_profile_availability pending_records lookup in
  with_profiles
  = omap (λ record,
            apify_profile ←
              lookup !! normalize_linkedin_handle (linkedin_handle record);
            Some (apify_profile, record))
      pending_records
  ∧ without_profiles
    = filter (λ record,
                lookup !! normalize_linkedin_handle (linkedin_handle record) = None)
        pending_records.
Proof.
  intros Hrun.
  destruct (partition_records_by_profile_availability pending_records lookup)
    as [with_profiles without_profiles] eqn:Hpart.
  revert with_profiles without_profiles Hpart.
  induction pending_records as [|record rest IH]; intros w wo Hpart.
  { cbn in Hpart. by simplify_eq. }
  rewrite partition_cons in Hpart. cbv zeta in Hpart.
  destruct (partition_records_by_profile_availability rest lookup) as [w' wo'].
  destruct (IH w' wo' eq_refl) as (IHw & IHwo).
  cbn [fst snd] in Hpart. unfold match_record_to_apify_profile in Hpart.
  cbn [omap list_omap].
  destruct (lookup !! normalize_linkedin_handle (linkedin_handle record))
    as [p|] eqn:Hm.
  - rewrite (create_lookup_truthy _ _ _ _ Hrun Hm) in Hpart. simplify_eq.
    split; [done|]. by rewrite filter_cons_False by (by rewrite Hm).
  - simplify_eq. split; [done|]. by rewrite filter_cons_True.
Qed.

(** X8: a record whose stored handle is [in/] and a bare handle is matched
    with the profile the provider returns for it, whatever the case of the
    letters in the returned [publicIdentifier], unless a later profile of
    the list has the same key. *)
Theorem match_ignores_case_and_form (h h' : string) (record : pending_record)
    (apify_profile : profile) (before after : list profile)
    (lookup : gmap string profile) :
  bare_handle h → bare_handle h' → Str.lower h = Str.lower h' →
  linkedin_handle record = "in/" +:+ h →
  dict_lookup "publicIdentifier" apify_profile = Some (PStr h') →
  "/in/" +:+ Str.lower h ∉ lookup_keys after →
  create_lookup_from_apify_profiles (before ++ apify_profile :: after) = Ok lookup →
  match_record_to_apify_profile record lookup = Some apify_profile.
Proof.
  intros Hh Hh' Hlow Hrec Hid Hafter Hrun.
  unfold match_record_to_apify_profile. rewrite Hrec.
  destruct Hh as (Hne & Hm & _ & Htrail & _).
  pose proof (normalize_in_path "" h (or_introl eq_refl) Hne Hm Htrail) as Hkey.
  rewrite StrFacts.app_nil_l in Hkey. rewrite Hkey.
  eapply create_lookup_last_wins; [|exact Hafter|exact Hrun].
  unfold lookup_key, dict_get_default. rewrite Hid.
  rewrite (normalize_bare_form _ Hh'), Hlow.
  destruct Hh' as (Hne' & _). by destruct h'.
Qed.

End LookupFacts.

(** ** Selection query: order and completeness *)

Section SelectionOrder.

Lemma order_by_spec a b :
  order_by a b ↔
  Sql.coalesce (lud_retry_count a) 0 < Sql.coalesce (lud_retry_count b) 0
  ∨ (Sql.coalesce (lud_retry_count a) 0 = Sql.coalesce (lud_retry_count b) 0
     ∧ Sql.nulls_first_leb (lud_last_retry_at a) (lud_last_retry_at b)).
Proof.
  unfold order_by, order_by_leb. cbv zeta.
  rewrite orb_True, andb_True, Is_true_true, Z.ltb_lt, Is_true_true, Z.eqb_eq.
  done.
Qed.

Local Instance order_by_total : Total order_by.
Proof.
  intros a b. rewrite !order_by_spec.
  destruct (Z.lt_trichotomy (Sql.coalesce (lud_retry_count a) 0)
              (Sql.coalesce (lud_retry_count b) 0)) as [?|[Heq|?]]; [auto..| |auto].
  destruct (lud_last_retry_at a) as [x|], (lud_last_retry_at b) as [y|]; simpl;
    try (left; right; by split); try (right; right; by split).
  destruct (Z.le_gt_cases x y).
  - left; right. split; [done|]. by apply Is_true_true, Z.leb_le.
  - right; right. split; [done|]. apply Is_true_true, Z.leb_le. lia.
Qed.

Local Instance order_by_trans : Transitive order_by.
Proof.
  intros a b c. rewrite !order_by_spec.
  intros [?|[Hab Hl]] [?|[Hbc Hl']]; [left; lia..|].
  right. split; [lia|].
  destruct (lud_last_retry_at a) as [x|], (lud_last_retry_at b) as [y|],
    (lud_last_retry_at c) as [z|]; simpl in *; try done.
  apply Is_true_true, Z.leb_le. apply Is_true_true, Z.leb_le in Hl, Hl'. lia.
Qed.

Lemma selected_rows_sorted table now limit :
  StronglySorted order_by (selected_rows table now limit).
Proof.
  unfold selected_rows.
  set (sorted := merge_sort _ _).
  assert (StronglySorted order_by sorted) as Hs
    by apply (StronglySorted_merge_sort order_by).
  rewrite <- (take_drop limit sorted) in Hs.
  by apply StronglySorted_app_1_l in Hs.
Qed.

Lemma StronglySorted_lookup {A} (R : relation A) (l : list A) i j a b :
  StronglySorted R l → (i < j)%nat → l !! i = Some a → l !! j = Some b → R a b.
Proof.
  intros Hs. revert i j. induction Hs as [|x l Hs IH Hall]; intros i j Hij Hi Hj.
  - done.
  - destruct j as [|j]; [lia|]. destruct i as [|i]; simplify_eq/=.
    + rewrite Forall_forall in Hall. apply Hall. by eapply list_elem_of_lookup_2.
    + apply (IH i j); [lia|done..].
Qed.

(** X9: the selected rows come in the order of the ORDER BY clause: of two
    rows the earlier has the lower retry count, counting NULL as 0, and with
    equal retry counts it has no last attempt or the earlier last attempt. *)
Theorem selection_order (table : list user_details_row) (now : Z) (limit : nat)
    (i j : nat) (a b : user_details_row) :
  (i < j)%nat →
  selected_rows table now limit !! i = Some a →
  selected_rows table now limit !! j = Some b →
  Sql.coalesce (lud_retry_count a) 0 ≤ Sql.coalesce (lud_retry_count b) 0
  ∧ (Sql.coalesce (lud_retry_count a) 0 = Sql.coalesce (lud_retry_count b) 0 →
     match lud_last_retry_at a, lud_last_retry_at b with
     | None, _ => True
     | Some _, None => False
     | Some x, Some y => x ≤ y
     end).
Proof.
  intros Hij Ha Hb.
  pose proof (StronglySorted_lookup _ _ _ _ _ _
                (selected_rows_sorted table now limit) Hij Ha Hb) as Hab.
  apply order_by_spec in Hab as [Hlt | [Heq Hl]].
  - split; [lia|]. intros ?. lia.
  - split; [lia|]. intros _.
    destruct (lud_last_retry_at a) as [x|], (lud_last_retry_at b) as [y|];
      simpl in Hl; try done.
    by apply Is_true_true, Z.leb_le in Hl.
Qed.

(** X10: the query returns no row more often than the table holds it, and
    when the limit is not below the number of eligible rows it returns every
    eligible row of the table. *)
Theorem selection_complete (table : list user_details_row) (now : Z)
    (limit : nat) :
  selected_rows table now limit ⊆+ table
  ∧ ((length (filter (λ lud, Sql.holds (where_clause now lud)) table) ≤ limit)%nat →
     ∀ lud, lud ∈ table → eligible now lud → lud ∈ selected_rows table now limit).
Proof.
  split.
  - unfold selected_rows. etrans; [apply submseteq_take|].
    rewrite merge_sort_Permutation. apply sublist_submseteq, sublist_filter.
  - intros Hlimit lud Hin Hel. unfold selected_rows.
    rewrite take_ge by (by rewrite merge_sort_Permutation).
    rewrite merge_sort_Permutation. apply list_elem_of_filter. split; [|done].
    apply Is_true_true. by apply where_clause_eligible.
Qed.

(** X11: every record the query returns has a retry count below 3; it is 0
    for a row that was never attempted. *)
Theorem pending_retry_count_below_3 (table : list user_details_row) (now : Z)
    (limit : nat) (record : pending_record) :
  record ∈ pending_query table now limit →
  retry_count record < 3
  ∧ ∃ lud, lud ∈ table ∧ record = select_list lud
           ∧ (lud_retry_count lud = None → retry_count record = 0).
Proof.
  unfold pending_query. intros (lud & -> & Hin)%list_elem_of_fmap.
  apply selected_rows_filter in Hin as [Hin Hw].
  apply where_clause_eligible in Hw as [_ Hw]. split.
  - unfold select_list. simpl.
    destruct Hw as [-> | (_ & n & -> & Hlt & _)]; simpl; lia.
  - exists lud. split_and!; [done..|]. unfold select_list. simpl. by intros ->.
Qed.

(** X12: a row in the state the miss path leaves (not found, retry count
    [prior + 1], cooldown until the time the scheduler computed) is eligible
    exactly when the new retry count is below 3 and the cooldown has passed;
    so it is not selected within 5 minutes of the miss, and never after a
    miss with a prior retry count of 2 or more. *)
Theorem miss_cooldown_respected (now t prior : Z) (lud : user_details_row) :
  is_Some (lud_linkedin_handle lud) →
  lud_profile_found lud = Some false →
  lud_retry_count lud = Some (new_retry_count prior) →
  lud_next_retry_after lud = Some (next_retry_timestamp now prior) →
  (eligible t lud
   ↔ new_retry_count prior < 3 ∧ next_retry_timestamp now prior < t)
  ∧ (0 ≤ prior → t ≤ now + 5 * 60000 →
     ∀ table limit, lud ∉ selected_rows table t limit)
  ∧ (2 ≤ prior → ∀ table limit, lud ∉ selected_rows table t limit).
Proof.
  intros Hh Hf Hrc Hnext.
  assert (eligible t lud
          ↔ new_retry_count prior < 3 ∧ next_retry_timestamp now prior < t) as Hel.
  { unfold eligible. rewrite Hf, Hrc, Hnext. split.
    - intros (_ & [? | (_ & n & ? & ? & [? | (t' & ? & ?)])]); by simplify_eq.
    - intros [? ?]. split; [done|]. right. split; [done|]. eauto 10. }
  split_and!; [done|..].
  - intros Hp Ht table limit [_ Hw%where_clause_eligible]%selected_rows_filter.
    apply Hel in Hw as [_ Hw].
    unfold next_retry_timestamp, backoff_minutes, new_retry_count in Hw. nia.
  - intros Hp table limit [_ Hw%where_clause_eligible]%selected_rows_filter.
    apply Hel in Hw as [Hw _]. unfold new_retry_count in Hw. lia.
Qed.

End SelectionOrder.

(** ** Upsert and run: outcomes *)

Section RunFacts.
Variable now_ms : nat → Z.
Variable connection_opens : nat → bool.
Variable get_linkedin_profiles : list string → result (list profile).
Variable upsert_multiple_records : list outcome_record → result unit.
Variable json_dumps : profile → string.

Local Abbreviation fetch := (fetch_records_pending_for_enrichment now_ms connection_opens).
Local Abbreviation upsert := (upsert_linkedin_profiles connection_opens upsert_multiple_records).
Local Abbreviation run :=
  (enrich_linkedin_profiles now_ms connection_opens get_linkedin_profiles
     upsert_multiple_records json_dumps).
Local Abbreviation build_enriched :=
  (λ '(apify_profile, record),
     build_enriched_profile_record json_dumps apify_profile record).

(** The records a run selects in the world [w]. *)
Local Abbreviation selected batch_size w :=
  (if connection_opens (connections w)
   then pending_query (user_details w) (now_ms (clock_reads w)) batch_size
   else []).

(** The missing records a run builds, the [i]-th at the [i]-th reading of
    the clock after [reads]. *)
Local Abbreviation built_missing reads records :=
  (imap (λ i record,
           build_missing_profile_record (now_ms (reads + i)) record
             default_current_retry_count) records).

(** What the upsert returns for a batch that is not empty. *)
Local Abbreviation upsert_result w profile_records :=
  (if connection_opens (connections w)
   then match upsert_multiple_records profile_records with
        | Ok _ => Ok true
        | Raise e => if is_exception e then Ok false else Raise e
        end
   else Ok false).

Lemma upsert_exact (profile_records : list outcome_record) (w : world) :
  upsert profile_records w
  = match profile_records with
    | [] => (Ok true, w)
    | _ =>
        let stored :=
          connection_opens (connections w)
          && store_accepts_batch upsert_multiple_records profile_records in
        (upsert_result w profile_records,
         {| user_details := user_details w; clock_reads := clock_reads w;
            connections := S (connections w);
            upserts := if stored then upserts w ++ [profile_records]
                       else upserts w |})
    end.
Proof.
  unfold upsert_linkedin_profiles, store_accepts_batch.
  destruct profile_records as [|row rows]; [done|].
  unfold mbind, M_bind, try_except, call_upsert_multiple_records. simpl.
  destruct (connection_opens (connections w)); [|done]. simpl.
  destruct (upsert_multiple_records (row :: rows)) as [u|e]; [done|]. simpl.
  by destruct (is_exception e).
Qed.

Lemma for_each_cons {A B} (f : A → M B) x l w :
  for_each f (x :: l) w
  = match f x w with
    | (Ok y, w') =>
        match for_each f l w' with
        | (Ok ys, w'') => (Ok (y :: ys), w'')
        | (Raise e, w'') => (Raise e, w'')
        end
    | (Raise e, w') => (Raise e, w')
    end.
Proof.
  cbn [for_each]. unfold mbind, M_bind.
  destruct (f x w) as [[y|e] w']; [|done].
  by destruct (for_each f l w') as [[ys|e] w''].
Qed.

Lemma build_missing_now_spec record c w :
  build_missing_profile_record_now now_ms record c w
  = (Ok (build_missing_profile_record (now_ms (clock_reads w)) record c),
     {| user_details := user_details w; clock_reads := S (clock_reads w);
        connections := connections w; upserts := upserts w |}).
Proof. reflexivity. Qed.

Lemma for_each_missing_exact c l w :
  for_each (λ record, build_missing_profile_record_now now_ms record c) l w
  = (Ok (imap (λ i record,
                 build_missing_profile_record (now_ms (clock_reads w + i)) record c) l),
     {| user_details := user_details w;
        clock_reads := clock_reads w + length l;
        connections := connections w; upserts := upserts w |}).
Proof.
  revert w. induction l as [|record l IH]; intros w.
  - cbn. rewrite Nat.add_0_r. by destruct w.
  - rewrite for_each_cons, build_missing_now_spec, IH.
    cbn [user_details clock_reads connections upserts length imap].
    rewrite Nat.add_0_r. f_equal.
    + do 2 f_equal. apply imap_ext. intros i x _. cbn.
      by replace (clock_reads w + S i)%nat with (S (clock_reads w + i)) by lia.
    + f_equal. lia.
Qed.

(** The run as one expression. *)
Lemma run_unfold batch_size w :
  run batch_size w
  = match selected batch_size w with
    | [] => (Ok tt, after_selection w)
    | pending_records =>
        match get_linkedin_profiles (linkedin_urls pending_records) with
        | Raise e => (Raise e, after_selection w)
        | Ok apify_profiles =>
            match create_lookup_from_apify_profiles apify_profiles with
            | Raise e => (Raise e, after_selection w)
            | Ok profile_lookup =>
                let part :=
                  partition_records_by_profile_availability pending_records
                    profile_lookup in
                let all_records :=
                  (build_enriched <$> part.1)
                  ++ built_missing (S (clock_reads w)) part.2 in
                let stored :=
                  upsert all_records
                    {| user_details := user_details w;
                       clock_reads := S (clock_reads w) + length part.2;
                       connections := S (connections w);
                       upserts := upserts w |} in
                (match stored.1 with Ok _ => Ok tt | Raise e => Raise e end,
                 stored.2)
            end
        end
    end.
Proof.
  unfold enrich_linkedin_profiles, mbind at 1, M_bind at 1.
  rewrite fetch_spec. fold (after_selection w).
  destruct (connection_opens (connections w)); [|done].
  destruct (pending_query _ _ _) as [|record rest]; [done|].
  unfold mbind at 1, M_bind at 1, call_get_linkedin_profiles. fold (linkedin_urls (record :: rest)).
  destruct (get_linkedin_profiles _) as [apify_profiles|e]; [|done].
  unfold mbind at 1, M_bind at 1, lift.
  destruct (create_lookup_from_apify_profiles apify_profiles) as [lookup|e]; [|done].
  cbv zeta.
  destruct (partition_records_by_profile_availability (record :: rest) lookup)
    as [with_profiles without_profiles].
  unfold mbind at 1, M_bind at 1. rewrite for_each_missing_exact.
  unfold mbind at 1, M_bind at 1. cbn [fst snd clock_reads user_details connections upserts after_selection].
  by destruct (upsert _ _) as [[ok|e] w'].
Qed.

(** The batch of a run, from the selected records and the lookup. *)
Local Abbreviation batch_of w pending_records profile_lookup :=
  ((build_enriched
      <$> (partition_records_by_profile_availability pending_records profile_lookup).1)
   ++ built_missing (S (clock_reads w))
        (partition_records_by_profile_availability pending_records profile_lookup).2).

Lemma batch_of_length w pending_records (lookup : gmap string profile) :
  length (batch_of w pending_records lookup) = length pending_records.
Proof.
  rewrite length_app, length_fmap, length_imap.
  symmetry. apply partition_length.
Qed.

Lemma upserts_not_grown (log : list (list outcome_record)) batch :
  log ≠ log ++ [batch].
Proof.
  intros H. apply (f_equal length) in H. rewrite length_app in H. simpl in H. lia.
Qed.

(** A run that stored a batch selected records, got profiles and built the
    batch from them. *)
Lemma run_stored_batch batch_size w batch :
  upserts (run batch_size w).2 = upserts w ++ [batch] →
  ∃ apify_profiles profile_lookup,
    selected batch_size w ≠ []
    ∧ get_linkedin_profiles (linkedin_urls (selected batch_size w)) = Ok apify_profiles
    ∧ create_lookup_from_apify_profiles apify_profiles = Ok profile_lookup
    ∧ batch = batch_of w (selected batch_size w) profile_lookup.
Proof.
  rewrite run_unfold. set (pending := selected batch_size w).
  destruct pending as [|record rest] eqn:Hsel;
    [by intros ?%upserts_not_grown|].
  cbv zeta.
  destruct (get_linkedin_profiles _) as [apify_profiles|e];
    [|by intros ?%upserts_not_grown].
  destruct (create_lookup_from_apify_profiles apify_profiles) as [lookup|e] eqn:Hl;
    [|by intros ?%upserts_not_grown].
  cbv zeta. cbn [snd]. rewrite upsert_exact.
  pose proof (batch_of_length w (record :: rest) lookup) as Hlen.
  destruct (batch_of w (record :: rest) lookup) as [|row rows] eqn:Hb;
    [done|]. cbv zeta. cbn [snd upserts connections].
  destruct (_ && _); [|by intros ?%upserts_not_grown].
  intros Heq%app_inv_head. simplify_eq.
  by exists apify_profiles, lookup.
Qed.

Lemma outcome_key_missing (g : nat → Z) c l :
  outcome_key <$> imap (λ i record, build_missing_profile_record (g i) record c) l
  = pending_key <$> l.
Proof.
  revert g. induction l as [|record l IH]; intros g; [done|].
  cbn [imap fmap list_fmap]. f_equal. apply (IH (g ∘ S)).
Qed.

(** C8: the partition puts each record in one of the two lists; the two
    list comprehensions build one record for each element of their list and
    never raise, so the selected records are as many as the enriched and the
    missing records together. In a run that has selected records and got
    usable profiles for them, the batch handed to the upsert is the enriched
    records followed by the missing records of the partition of the selected
    records: it has one record for each selected record, with that record's
    key, and it is what the store holds afterwards when the connection opens
    and the store takes it; no run stores anything but one such batch. *)
Theorem one_outcome_per_record (pending_records : list pending_record)
    (lookup : gmap string profile) (batch_size : nat) (w : world) :
  let '(with_profiles, without_profiles) :=
    partition_records_by_profile_availability pending_records lookup in
  let enriched_records :=
    (λ '(profile, record), build_enriched_profile_record json_dumps profile record)
      <$> with_profiles in
  pending_records ≡ₚ with_profiles.*2 ++ without_profiles
  ∧ (∃ missing_records w',
       for_each
         (λ record, build_missing_profile_record_now now_ms record
                      default_current_retry_count)
         without_profiles w = (Ok missing_records, w')
       ∧ length pending_records
         = (length enriched_records + length missing_records)%nat)
  ∧ (upserts (run batch_size w).2 = upserts w
     ∨ ∃ selected enriched_records missing_records,
         (fetch batch_size w).1 = Ok (Some selected)
         ∧ upserts (run batch_size w).2
           = upserts w ++ [enriched_records ++ missing_records]
         ∧ length selected
           = (length enriched_records + length missing_records)%nat)
  ∧ (∀ selected apify_profiles profile_lookup,
       (fetch batch_size w).1 = Ok (Some selected) →
       selected ≠ [] →
       get_linkedin_profiles (linkedin_urls selected) = Ok apify_profiles →
       create_lookup_from_apify_profiles apify_profiles = Ok profile_lookup →
       let part :=
         partition_records_by_profile_availability selected profile_lookup in
       let enriched_records :=
         (λ '(profile, record),
            build_enriched_profile_record json_dumps profile record) <$> part.1 in
       let missing_records :=
         imap (λ i record,
                 build_missing_profile_record (now_ms (S (clock_reads w) + i))
                   record default_current_retry_count) part.2 in
       let all_records := enriched_records ++ missing_records in
       length selected = (length enriched_records + length missing_records)%nat
       ∧ outcome_key <$> all_records ≡ₚ pending_key <$> selected
       ∧ upserts (run batch_size w).2
         = if connection_opens (S (connections w))
              && store_accepts_batch upsert_multiple_records all_records
           then upserts w ++ [all_records]
           else upserts w).
Proof.
  pose proof (partition_permutation pending_records lookup) as Hperm.
  pose proof (partition_length pending_records lookup) as Hlen.
  destruct (partition_records_by_profile_availability pending_records lookup)
    as [with_profiles without_profiles].
  split; [done|]. split.
  { rewrite for_each_missing_exact. eexists _, _. split; [reflexivity|].
    by rewrite length_fmap, length_imap. }
  clear. split.
  - rewrite run_unfold, fetch_spec.
    destruct (connection_opens (connections w)); [|by left].
    destruct (pending_query _ _ _) as [|record rest]; [by left|]. cbv zeta.
    destruct (get_linkedin_profiles _) as [apify_profiles|e]; [|by left].
    destruct (create_lookup_from_apify_profiles apify_profiles) as [profile_lookup|e];
      [|by left].
    cbn [fst snd].
    destruct (upsert_spec connection_opens upsert_multiple_records
                (batch_of w (record :: rest) profile_lookup)
                {| user_details := user_details w;
                   clock_reads :=
                     S (clock_reads w)
                     + length (partition_records_by_profile_availability
                                 (record :: rest) profile_lookup).2;
                   connections := S (connections w);
                   upserts := upserts w |}) as [Hup|Hup]; [by left|].
    right. eexists _, _, _. split_and!; [reflexivity | exact Hup |].
    rewrite length_fmap, length_imap. apply partition_length.
  - intros pending apify_profiles profile_lookup Hsel Hne Hget Hlookup.
    cbv zeta. rewrite fetch_spec in Hsel. cbn [fst] in Hsel.
    destruct (connection_opens (connections w)) eqn:Hconn; [|discriminate].
    injection Hsel as Hsel. split_and!.
    + rewrite length_fmap, length_imap. apply partition_length.
    + rewrite fmap_app, outcome_key_missing.
      rewrite (partition_permutation pending profile_lookup) at 3.
      rewrite fmap_app.
      assert (outcome_key
                <$> (build_enriched
                       <$> (partition_records_by_profile_availability
                              pending profile_lookup).1)
              = pending_key
                  <$> (partition_records_by_profile_availability
                         pending profile_lookup).1.*2) as ->; [|done].
      rewrite <- !list_fmap_compose. apply list_fmap_ext. by intros i [p r] _.
    + rewrite run_unfold, Hconn, Hsel.
      pose proof (batch_of_length w pending profile_lookup) as Hlen.
      destruct pending as [|record rest]; [done|].
      cbv zeta. rewrite Hget, Hlookup. cbv zeta. cbn [snd]. rewrite upsert_exact.
      destruct (batch_of w (record :: rest) profile_lookup) as [|row rows];
        [done|].
      reflexivity.
Qed.


(** X16: a batch the run stores has, for each selected record, one outcome
    record with that record's [github_user_id] and [linkedin_handle], and no
    other: the conflict keys of the batch are those of the selected records,
    each as often. *)
Theorem run_batch_keys (batch_size : nat) (w : world) (batch : list outcome_record) :
  upserts (run batch_size w).2 = upserts w ++ [batch] →
  outcome_key <$> batch ≡ₚ pending_key <$> selected batch_size w.
Proof.
  intros (apify_profiles & lookup & _ & _ & _ & ->)%run_stored_batch.
  rewrite fmap_app, outcome_key_missing.
  rewrite (partition_permutation (selected batch_size w) lookup) at 3.
  rewrite fmap_app.
  assert (outcome_key
            <$> (build_enriched
                   <$> (partition_records_by_profile_availability
                          (selected batch_size w) lookup).1)
          = pending_key
              <$> (partition_records_by_profile_availability
                     (selected batch_size w) lookup).1.*2) as ->; [|done].
  rewrite <- !list_fmap_compose. apply list_fmap_ext. by intros i [p r] _.
Qed.

(** X17: every record of a batch the run stores is an enriched record with
    retry count 0 or a missing record with retry count 1, whatever retry
    count the selected record had: the run calls the miss path with the
    default [current_retry_count]. *)
Theorem run_retry_counts (batch_size : nat) (w : world) (batch : list outcome_record) :
  upserts (run batch_size w).2 = upserts w ++ [batch] →
  Forall (λ out,
            (field "profile_found" out = Some (PBool true)
             ∧ field "retry_count" out = Some (PInt 0))
            ∨ (field "profile_found" out = Some (PBool false)
               ∧ field "retry_count" out = Some (PInt 1)))
    batch.
Proof.
  intros (apify_profiles & lookup & _ & _ & _ & ->)%run_stored_batch.
  apply Forall_app. split.
  - apply Forall_fmap, Forall_forall. intros [p r] _. by left.
  - apply Forall_forall. intros out (i & r & -> & _)%elem_of_lookup_imap. by right.
Qed.

(** X18: when the provider returns no profile at all, the run stores every
    selected record as a miss, in the order of the selection. *)
Theorem run_without_profiles (batch_size : nat) (w : world) :
  selected batch_size w ≠ [] →
  get_linkedin_profiles (linkedin_urls (selected batch_size w)) = Ok [] →
  connection_opens (S (connections w)) = true →
  store_accepts_batch upsert_multiple_records
    (built_missing (S (clock_reads w)) (selected batch_size w)) = true →
  upserts (run batch_size w).2
  = upserts w ++ [built_missing (S (clock_reads w)) (selected batch_size w)].
Proof.
  intros Hsel Hget Hconn Hstore.
  assert (∀ l : list pending_record,
            partition_records_by_profile_availability l ∅ = ([], l)) as Hpart.
  { induction l as [|r l IH]; [done|]. rewrite partition_cons, IH. done. }
  rewrite run_unfold. set (pending := selected batch_size w) in *.
  destruct pending as [|record rest] eqn:Hp; [done|].
  cbv zeta. rewrite Hget. cbn [create_lookup_from_apify_profiles create_lookup_loop].
  rewrite Hpart. cbv zeta. cbn [fst snd fmap list_fmap app]. rewrite upsert_exact.
  destruct (built_missing (S (clock_reads w)) (record :: rest)) as [|row rows] eqn:Hb;
    [done|].
  cbv zeta. cbn [snd upserts connections]. by rewrite Hconn, Hstore.
Qed.


End RunFacts.

(** ** Upsert and run when database calls raise *)

Section FaultFacts.
Import WithFaults.
Variable now_ms : nat → Z.
Variable db : db_calls.
Variable get_linkedin_profiles : list string → result (list profile).
Variable upsert_multiple_records : list outcome_record → result unit.
Variable json_dumps : profile → string.

Local Abbreviation fetch := (WithFaults.fetch_records_pending_for_enrichment now_ms db).
Local Abbreviation upsert :=
  (WithFaults.upsert_linkedin_profiles db upsert_multiple_records).
Local Abbreviation run :=
  (WithFaults.enrich_linkedin_profiles now_ms db get_linkedin_profiles
     upsert_multiple_records json_dumps).
Local Abbreviation batch_of w pending_records profile_lookup :=
  (((λ '(apify_profile, record),
       build_enriched_profile_record json_dumps apify_profile record)
      <$> (partition_records_by_profile_availability pending_records profile_lookup).1)
   ++ imap (λ i record,
              build_missing_profile_record (now_ms (S (clock_reads w) + i)) record
                default_current_retry_count)
        (partition_records_by_profile_availability pending_records profile_lookup).2).

(** What the except block does. *)
Local Abbreviation handled :=
  (match handler_close db with
   | Ok _ => Ok false
   | Raise e => Raise e
   end).

Lemma faulty_fetch_exact limit w :
  fetch limit w
  = (match fetch_open db with
     | Raise e => Raise e
     | Ok false => Ok None
     | Ok true =>
         match fetch_query db with
         | Some e => Raise e
         | None =>
             match fetch_close db with
             | Raise e => Raise e
             | Ok _ =>
                 Ok (Some (pending_query (user_details w) (now_ms (clock_reads w)) limit))
             end
         end
     end, after_selection w).
Proof.
  unfold WithFaults.fetch_records_pending_for_enrichment, mbind, M_bind,
    current_time_ms, WithFaults.open_connection, WithFaults.execute_query,
    WithFaults.close_connection, after_selection.
  cbn [clock_reads user_details connections upserts].
  destruct (fetch_open db) as [[]|e]; [|done..].
  destruct (fetch_query db) as [e|]; [done|].
  by destruct (fetch_close db).
Qed.

Lemma faulty_upsert_exact profile_records w :
  upsert profile_records w
  = match profile_records with
    | [] => (Ok true, w)
    | _ =>
        let opened :=
          {| user_details := user_details w; clock_reads := clock_reads w;
             connections := S (connections w); upserts := upserts w |} in
        let taken :=
          {| user_details := user_details w; clock_reads := clock_reads w;
             connections := S (connections w);
             upserts := upserts w ++ [profile_records] |} in
        match upsert_open db with
        | Raise e => (Raise e, opened)
        | Ok false => (Ok false, opened)
        | Ok true =>
            match upsert_multiple_records profile_records with
            | Raise e => (if is_exception e then handled else Raise e, opened)
            | Ok _ =>
                match upsert_close db with
                | Ok _ => (Ok true, taken)
                | Raise e => (if is_exception e then handled else Raise e, taken)
                end
            end
        end
    end.
Proof.
  unfold WithFaults.upsert_linkedin_profiles.
  destruct profile_records as [|row rows]; [done|].
  unfold mbind, M_bind, try_except, WithFaults.open_connection,
    WithFaults.close_connection, call_upsert_multiple_records.
  cbn [clock_reads user_details connections upserts].
  destruct (upsert_open db) as [[]|e]; [|done..].
  destruct (upsert_multiple_records (row :: rows)) as [u|e].
  - destruct (upsert_close db) as [u'|e]; [done|].
    destruct (is_exception e); [|done]. by destruct (handler_close db).
  - destruct (is_exception e); [|done]. by destruct (handler_close db).
Qed.

(** The run as one expression. *)
Lemma faulty_run_unfold batch_size w :
  run batch_size w
  = match (fetch batch_size w).1 with
    | Raise e => (Raise e, after_selection w)
    | Ok None | Ok (Some []) => (Ok tt, after_selection w)
    | Ok (Some pending_records) =>
        match get_linkedin_profiles (linkedin_urls pending_records) with
        | Raise e => (Raise e, after_selection w)
        | Ok apify_profiles =>
            match create_lookup_from_apify_profiles apify_profiles with
            | Raise e => (Raise e, after_selection w)
            | Ok profile_lookup =>
                let stored :=
                  upsert (batch_of w pending_records profile_lookup)
                    (before_upsert w
                       (length (partition_records_by_profile_availability
                                  pending_records profile_lookup).2)) in
                (match stored.1 with Ok _ => Ok tt | Raise e => Raise e end,
                 stored.2)
            end
        end
    end.
Proof.
  unfold WithFaults.enrich_linkedin_profiles, mbind at 1, M_bind at 1.
  rewrite faulty_fetch_exact. cbn [fst].
  destruct (match fetch_open db with Ok _ => _ | Raise _ => _ end)
    as [[[|record rest]|]|e]; [done| |done..].
  unfold mbind at 1, M_bind at 1, call_get_linkedin_profiles.
  fold (linkedin_urls (record :: rest)).
  destruct (get_linkedin_profiles _) as [apify_profiles|e]; [|done].
  unfold mbind at 1, M_bind at 1, lift.
  destruct (create_lookup_from_apify_profiles apify_profiles) as [lookup|e]; [|done].
  cbv zeta.
  destruct (partition_records_by_profile_availability (record :: rest) lookup)
    as [with_profiles without_profiles].
  unfold mbind at 1, M_bind at 1. rewrite for_each_missing_exact.
  unfold mbind at 1, M_bind at 1.
  cbn [fst snd clock_reads user_details connections upserts after_selection].
  unfold before_upsert.
  by destruct (upsert _ _) as [[ok|e] w'].
Qed.







End FaultFacts.

(** With database calls that return, the functions are those of
    [Section Orchestrator]. *)
Lemma upsert_when_db_returns connection_opens upsert_multiple_records
    profile_records w db :
  WithFaults.upsert_open db = Ok (connection_opens (connections w)) →
  WithFaults.upsert_close db = Ok tt →
  WithFaults.handler_close db = Ok tt →
  WithFaults.upsert_linkedin_profiles db upsert_multiple_records profile_records w
  = upsert_linkedin_profiles connection_opens upsert_multiple_records
      profile_records w.
Proof.
  intros Hopen Hclose Hhandler.
  rewrite faulty_upsert_exact, upsert_exact, Hopen, Hclose, Hhandler.
  destruct profile_records as [|row rows]; [done|]. cbv zeta.
  unfold store_accepts_batch.
  destruct (connection_opens (connections w)); [|done].
  destruct (upsert_multiple_records (row :: rows)) as [[]|e]; [done|].
  by destruct (is_exception e).
Qed.

Lemma fetch_when_db_returns now_ms connection_opens limit w db :
  WithFaults.fetch_open db = Ok (connection_opens (connections w)) →
  WithFaults.fetch_query db = None →
  WithFaults.fetch_close db = Ok tt →
  WithFaults.fetch_records_pending_for_enrichment now_ms db limit w
  = fetch_records_pending_for_enrichment now_ms connection_opens limit w.
Proof.
  intros Hopen Hquery Hclose.
  rewrite faulty_fetch_exact, fetch_spec, Hopen, Hquery, Hclose.
  unfold after_selection. by destruct (connection_opens (connections w)).
Qed.

Lemma enrich_when_db_returns now_ms connection_opens get_linkedin_profiles
    upsert_multiple_records json_dumps batch_size w :
  WithFaults.enrich_linkedin_profiles now_ms
    (WithFaults.db_returns connection_opens w) get_linkedin_profiles
    upsert_multiple_records json_dumps batch_size w
  = enrich_linkedin_profiles now_ms connection_opens get_linkedin_profiles
      upsert_multiple_records json_dumps batch_size w.
Proof.
  rewrite faulty_run_unfold, run_unfold, faulty_fetch_exact.
  cbn [fst WithFaults.db_returns WithFaults.fetch_open WithFaults.fetch_query
         WithFaults.fetch_close].
  destruct (connection_opens (connections w)); [|done].
  destruct (pending_query _ _ _) as [|record rest]; [done|]. cbv zeta.
  destruct (get_linkedin_profiles _) as [apify_profiles|e]; [|done].
  destruct (create_lookup_from_apify_profiles apify_profiles) as [lookup|e]; [|done].
  by rewrite (upsert_when_db_returns connection_opens).
Qed.

(** ** Further runs on sample data *)

Section FurtherScenarios.
Import Sample.

Lemma create_lookup_entries_witness :
  is_Some (lookup_jdoe !! "/in/jdoe") ↔ "/in/jdoe" ∈ lookup_keys [jdoe; nameless].
Proof.
  apply (create_lookup_entries [jdoe; nameless] lookup_jdoe). reflexivity.
Defined.

Lemma create_lookup_skips_unidentified_witness :
  create_lookup_from_apify_profiles ([jdoe] ++ nameless :: [asmith])
  = create_lookup_from_apify_profiles ([jdoe] ++ [asmith]).
Proof.
  apply (create_lookup_skips_unidentified [jdoe] [asmith] nameless). reflexivity.
Defined.

Lemma partition_in_order_witness :
  pending_jdoe
  ∈ (partition_records_by_profile_availability [pending_jdoe] lookup_empty_profile).2.
Proof.
  generalize (partition_in_order [pending_jdoe] lookup_empty_profile).
  destruct (partition_records_by_profile_availability [pending_jdoe] lookup_empty_profile)
    as [w wo].
  intros (_ & _ & _ & Hempty). apply Hempty; [apply list_elem_of_here | reflexivity].
Defined.

Lemma partition_with_built_lookup_witness :
  (partition_records_by_profile_availability [pending_jdoe] lookup_jdoe).2
  = filter (λ record,
              lookup_jdoe !! normalize_linkedin_handle (linkedin_handle record) = None)
      [pending_jdoe].
Proof.
  generalize (partition_with_built_lookup [jdoe] lookup_jdoe [pending_jdoe] eq_refl).
  destruct (partition_records_by_profile_availability [pending_jdoe] lookup_jdoe)
    as [w wo].
  by intros [_ Hwo].
Defined.

Lemma match_ignores_case_and_form_witness :
  match_record_to_apify_profile pending_jdoe
    (<["/in/jdoe" := jdoe_upper]> (<["/in/jdoe" := jdoe]> ∅))
  = Some jdoe_upper.
Proof.
  apply (match_ignores_case_and_form "jdoe" "JDoe" pending_jdoe jdoe_upper [jdoe] []).
  - by split_and!.
  - by split_and!.
  - reflexivity.
  - reflexivity.
  - reflexivity.
  - apply not_elem_of_nil.
  - reflexivity.
Defined.

Lemma selection_order_witness :
  Sql.coalesce (lud_retry_count never_attempted) 0
  ≤ Sql.coalesce (lud_retry_count failed_twice) 0.
Proof.
  destruct (selection_order [failed_twice; never_attempted] 1000000 5 0 1
              never_attempted failed_twice) as [Hle _];
    [lia | by vm_compute | by vm_compute | exact Hle].
Defined.

Lemma selection_complete_witness :
  never_attempted ∈ selected_rows [failed_thrice; never_attempted] 1000000 5.
Proof.
  destruct (selection_complete [failed_thrice; never_attempted] 1000000 5)
    as [_ Hall].
  apply Hall.
  - vm_compute. lia.
  - apply list_elem_of_further, list_elem_of_here.
  - split; [by eexists | by left].
Defined.

Lemma pending_retry_count_below_3_witness : retry_count pending_jdoe < 3.
Proof.
  destruct (pending_retry_count_below_3 [never_attempted] 1000000 5 pending_jdoe)
    as [Hlt _]; [|exact Hlt].
  assert (pending_query [never_attempted] 1000000 5 = [pending_jdoe]) as ->
    by (by vm_compute).
  apply list_elem_of_here.
Defined.

Lemma miss_cooldown_respected_witness :
  failed_once ∉ selected_rows [failed_once] 5001 5.
Proof.
  destruct (miss_cooldown_respected 5000 5001 0 failed_once)
    as (_ & Hcool & _); [by eexists | reflexivity | reflexivity | reflexivity |].
  apply Hcool; lia.
Defined.


Lemma run_batch_keys_witness :
  outcome_key <$> [build_enriched_profile_record dumps jdoe pending_jdoe]
  ≡ₚ pending_key <$> [pending_jdoe].
Proof.
  apply (run_batch_keys clock always_connected (provider_returns [jdoe])
           store_accepts dumps 5 (world_of [never_attempted])
           [build_enriched_profile_record dumps jdoe pending_jdoe]).
  by vm_compute.
Defined.

Lemma run_retry_counts_witness :
  Forall (λ out,
            (field "profile_found" out = Some (PBool true)
             ∧ field "retry_count" out = Some (PInt 0))
            ∨ (field "profile_found" out = Some (PBool false)
               ∧ field "retry_count" out = Some (PInt 1)))
    [build_missing_profile_record 5001 (select_list failed_twice) 0].
Proof.
  apply (run_retry_counts clock always_connected (provider_returns [])
           store_accepts dumps 5 (world_of [failed_twice])).
  by vm_compute.
Defined.

Lemma run_without_profiles_witness :
  upserts
    (enrich_linkedin_profiles clock always_connected (provider_returns [])
       store_accepts dumps 5 (world_of [never_attempted])).2
  = [[build_missing_profile_record 5001 pending_jdoe 0]].
Proof.
  rewrite (run_without_profiles clock always_connected (provider_returns [])
             store_accepts dumps 5 (world_of [never_attempted]));
    [by vm_compute | by vm_compute | reflexivity..].
Defined.


Lemma one_outcome_per_record_witness :
  upserts
    (enrich_linkedin_profiles clock always_connected (provider_returns [jdoe])
       store_accepts dumps 5
       (world_of [never_attempted; never_attempted_bmiller])).2
  = [[build_enriched_profile_record dumps jdoe pending_jdoe;
      build_missing_profile_record 5001 pending_bmiller 0]].
Proof.
  pose proof (one_outcome_per_record clock always_connected
                (provider_returns [jdoe]) store_accepts dumps
                [pending_jdoe; pending_bmiller] lookup_jdoe 5
                (world_of [never_attempted; never_attempted_bmiller])) as Hrun.
  destruct (partition_records_by_profile_availability
              [pending_jdoe; pending_bmiller] lookup_jdoe)
    as [with_profiles without_profiles].
  destruct Hrun as (_ & _ & _ & Hrun).
  destruct (Hrun [pending_jdoe; pending_bmiller] [jdoe] lookup_jdoe)
    as (_ & _ & Hstored); [by vm_compute|done|reflexivity..|].
  rewrite Hstored. by vm_compute.
Defined.



End FurtherScenarios.
